(** * SpacyNLP: the spaCy language-model component of the NLU pipeline

    A shallow embedding of [rasa/nlu/utils/spacy_utils.py] and the properties
    of its batch pipeline, text preprocessing, model loading and validation,
    cache key, and of the train and process steps.

    Python values are modelled as the code has them: [int] as [Z], [str] as
    [string], [None]-able values as [option] or as the [PyNone] value of a
    small value type, dictionaries as finite maps, lists as lists, raised
    exceptions as the [Raise] case of a result type. *)

From Stdlib Require Import Ascii.
From stdpp Require Import gmap strings list sorting fin_maps.

(** ** Exceptions and results *)

(** The exception classes that the component can raise or catch. *)
Inductive exc_class : Set :=
  | OSError
  | NameError
  | TypeError
  | KeyError
  | IndexError
  | Exception
  | InvalidModelError.

Global Instance exc_class_eq_dec : EqDecision exc_class.
Proof. solve_decision. Defined.

(** A raised exception: its class and its message. *)
Record exn : Set := Exn { exn_class : exc_class; exn_message : string }.

Global Instance exn_eq_dec : EqDecision exn.
Proof. solve_decision. Defined.

(** The outcome of a call: a returned value or a raised exception. *)
Inductive result (A : Type) : Type :=
  | Ok (a : A)
  | Raise (e : exn).
Global Arguments Ok {A} a.
Global Arguments Raise {A} e.

Global Instance result_bind : MBind result := λ A B k r,
  match r with
  | Ok a => k a
  | Raise e => Raise e
  end.

Global Instance result_ret : MRet result := λ A a, Ok a.

Global Instance result_fmap : FMap result := λ A B f r,
  match r with
  | Ok a => Ok (f a)
  | Raise e => Raise e
  end.

(** [raises c r]: the call ended by raising an exception of class [c]. *)
Definition raises {A} (c : exc_class) (r : result A) : Prop :=
  match r with
  | Ok _ => False
  | Raise e => exn_class e = c
  end.

(** ** Python values held by configuration dictionaries *)

Inductive pyval : Set :=
  | PyNone
  | PyBool (b : bool)
  | PyStr (s : string).

Global Instance pyval_eq_dec : EqDecision pyval.
Proof. solve_decision. Defined.

(** Truth value testing, as used by [if x] and [not x]. *)
Definition truthy (v : pyval) : bool :=
  match v with
  | PyNone => false
  | PyBool b => b
  | PyStr s => negb (String.eqb s "")
  end.

(** [d.get(key)]: the value, or [None] when the key is missing. *)
Definition dict_get (d : gmap string pyval) (key : string) : pyval :=
  default PyNone (d !! key).

(** [d.get(key, dflt)]: the value, or [dflt] when the key is missing. *)
Definition dict_get_default (d : gmap string pyval) (key : string)
    (dflt : pyval) : pyval :=
  default dflt (d !! key).

(** [a + b] on strings; any other operand is a [TypeError]. *)
Definition str_add (a b : pyval) : result pyval :=
  match a, b with
  | PyStr x, PyStr y => Ok (PyStr (x +:+ y))
  | _, _ => Raise (Exn TypeError "can only concatenate str to str")
  end.

(** [s.lower()].  A character of a text is a code point, and the texts of
    this development are the texts over the code points below 256 (ASCII
    and the Latin-1 supplement), one [ascii] per code point.  On these
    texts [str.lower] works character by character and stays within them:
    it changes the letters [A]..[Z] (65..90) and the Latin-1 capitals
    192..214 and 216..222, each to the code point 32 above it, and leaves
    every other character as it is.  Texts with code points from 256 on
    are not expressible. *)
Definition lower_char (c : ascii) : ascii :=
  let n := nat_of_ascii c in
  if ((65 <=? n)%nat && (n <=? 90)%nat)
     || ((192 <=? n)%nat && (n <=? 214)%nat)
     || ((216 <=? n)%nat && (n <=? 222)%nat)
  then ascii_of_nat (n + 32)
  else c.

Fixpoint lower (s : string) : string :=
  match s with
  | EmptyString => EmptyString
  | String c rest => String (lower_char c) (lower rest)
  end.

(** ** The names of the module when it runs

    The module imports [InvalidModelError] (with [Language], [Doc] and
    [Metadata]) inside [if typing.TYPE_CHECKING:].  [typing.TYPE_CHECKING] is
    [False] when the module runs, so these imports are not executed; a use of
    one of the names in a function body is looked up in the globals, then in
    the builtins, and raises [NameError] when it is in neither. *)

Definition typing_TYPE_CHECKING : bool := false.

Definition builtin_exceptions : gmap string exc_class :=
  {[ "Exception" := Exception; "OSError" := OSError;
     "NameError" := NameError; "TypeError" := TypeError;
     "KeyError" := KeyError; "IndexError" := IndexError ]}.

Definition module_exceptions (type_checking : bool) : gmap string exc_class :=
  if type_checking then {[ "InvalidModelError" := InvalidModelError ]} else ∅.

Definition lookup_name (globals : gmap string exc_class) (name : string)
    : result exc_class :=
  match (globals ∪ builtin_exceptions) !! name with
  | Some c => Ok c
  | None => Raise (Exn NameError ("name '" +:+ name +:+ "' is not defined"))
  end.

(** [raise name(message)]: the name is evaluated first. *)
Definition raise_named {A} (globals : gmap string exc_class) (name : string)
    (message : string) : result A :=
  c ← lookup_name globals name; Raise (Exn c message).

Definition newline : string := String (ascii_of_nat 10) EmptyString.

(** ** The spaCy collaborators

    A [Doc] is a sequence of tokens; [len(doc)] is the number of tokens and
    [Doc(vocab)] is the document without tokens.  The loaded language model
    is an external object: it is called on one text, it pipes a batch of
    texts, and it carries the path it was loaded from and its language. *)

Section SpacyNLP.

Context {Token : Type}.

Definition Doc : Type := list Token.

Definition empty_Doc : Doc := [].

Record Language : Type := {
  path : option string;
  lang : string;
  call : string → Doc;
  pipe : list string → list Doc
}.

(** The values that end up in the dictionary of [_merge_content_lists]:
    the texts of the indexed samples and the processed Docs. *)
Inductive item : Type :=
  | Text (s : string)
  | DocItem (d : Doc).

(** [len(x)] on such a value. *)
Definition len (x : item) : nat :=
  match x with
  | Text s => String.length s
  | DocItem d => length d
  end.

(** The component: its configuration and the loaded model. *)
Record SpacyNLP : Type := {
  component_config : gmap string pyval;
  nlp : Language
}.

(** ** The batch pipeline *)

(** [_filter_training_samples_by_content]: two [filter]s over the same list. *)
Definition _filter_training_samples_by_content
    (indexed_training_samples : list (Z * string))
    : list (Z * string) * list (Z * string) :=
  let docs_to_pipe :=
    filter (λ training_sample, training_sample.2 ≠ "")
           indexed_training_samples in
  let empty_docs :=
    filter (λ training_sample, training_sample.2 = "")
           indexed_training_samples in
  (docs_to_pipe, empty_docs).

(** [_process_content_bearing_samples]: the texts go to [nlp.pipe] (the
    [batch_size] only tunes the external call), and [zip] pairs each sample
    with the Doc at the same position. *)
Definition _process_content_bearing_samples (self : SpacyNLP)
    (samples_to_pipe : list (Z * string)) : list (Z * Doc) :=
  (λ p : (Z * string) * Doc, (p.1.1, p.2)) <$>
    zip samples_to_pipe (pipe (nlp self) (snd <$> samples_to_pipe)).

(** [_process_non_content_bearing_samples]: one empty Doc per empty sample. *)
Definition _process_non_content_bearing_samples (self : SpacyNLP)
    (empty_samples : list (Z * string)) : list (Z * Doc) :=
  (λ p : (Z * string) * Doc, (p.1.1, p.2)) <$>
    zip empty_samples ((λ _, empty_Doc) <$> empty_samples).

(** [dict(pairs)]: later pairs overwrite earlier ones with the same key. *)
Definition dict {V} (pairs : list (Z * V)) : gmap Z V :=
  foldl (λ d p, <[p.1 := p.2]> d) ∅ pairs.

(** [d.update(other)]: the entries of [other] win. *)
Definition dict_update {V} (d other : gmap Z V) : gmap Z V := other ∪ d.

(** [sorted(d.items())]: the items are (key, value) tuples; tuples compare by
    their first component first, and the keys of a dictionary are pairwise
    different, so the order is the order of the keys. *)
Definition key_le {V} : relation (Z * V) := λ a b, (a.1 ≤ b.1)%Z.

Global Instance key_le_dec {V} (a b : Z * V) : Decision (key_le a b).
Proof. unfold key_le. apply _. Defined.

Definition sorted_items {V} (d : gmap Z V) : list (Z * V) :=
  merge_sort key_le (map_to_list d).

(** [_merge_content_lists] *)
Definition _merge_content_lists
    (indexed_training_samples : list (Z * string))
    (doc_lists : list (Z * Doc)) : list (Z * item) :=
  let dct := dict (prod_map id Text <$> indexed_training_samples) in
  let dct := dict_update dct (dict (prod_map id DocItem <$> doc_lists)) in
  sorted_items dct.

(** The body of the loop of [_docs_for_training_examples] from the indexed
    samples on: partition, process both parts, merge. *)
Definition reorder_batch (self : SpacyNLP)
    (indexed_training_samples : list (Z * string)) : list (Z * item) :=
  let '(samples_to_pipe, empty_samples) :=
    _filter_training_samples_by_content indexed_training_samples in
  let content_bearing_docs :=
    _process_content_bearing_samples self samples_to_pipe in
  let non_content_bearing_docs :=
    _process_non_content_bearing_samples self empty_samples in
  _merge_content_lists indexed_training_samples
    (content_bearing_docs ++ non_content_bearing_docs).

(** [enumerate(xs)] *)
Definition enumerate {A} (xs : list A) : list (Z * A) :=
  imap (λ i x, (Z.of_nat i, x)) xs.

(** ** Messages and the constants of [rasa.nlu.constants] *)

(** Modelled from the spec: the [Message] class is not among the sources.
    The spec describes it as a sample with settable and gettable typed
    attributes, of which this component reads the raw-text attributes and
    writes the derived-representation attributes: [get] reads a text
    attribute ([None] when it is not set), [set] stores a representation
    under a key. *)
Record Message : Type := {
  data : gmap string string;
  representations : gmap string item
}.

Definition msg_get (m : Message) (prop : string) : option string :=
  data m !! prop.

Definition msg_set (m : Message) (prop : string) (info : item) : Message :=
  {| data := data m; representations := <[prop := info]> (representations m) |}.

(** The two imported constants are not among the sources and are taken as
    they come: the list of attributes and the dictionary of the keys under
    which the Docs are stored. *)
Context (DENSE_FEATURIZABLE_ATTRIBUTES : list string).
Context (SPACY_DOCS : gmap string string).

(** [SPACY_DOCS[attribute]] *)
Definition spacy_docs_key (attribute : string) : result string :=
  match SPACY_DOCS !! attribute with
  | Some key => Ok key
  | None => Raise (Exn KeyError attribute)
  end.

(** ** Text preprocessing *)

Definition _preprocess_text (self : SpacyNLP) (text : option string) : string :=
  let text := match text with None => "" | Some text => text end in
  if truthy (dict_get (component_config self) "case_sensitive")
  then text
  else lower text.

Definition _get_text (self : SpacyNLP) (example : Message)
    (attribute : string) : string :=
  _preprocess_text self (msg_get example attribute).

Definition _doc_for_text (self : SpacyNLP) (text : string) : Doc :=
  call (nlp self) (_preprocess_text self (Some text)).

(** ** Training *)

(** One round of the loop of [_docs_for_training_examples]. *)
Definition docs_for_attribute (self : SpacyNLP)
    (training_examples : list Message) (attribute : string) : list item :=
  let texts := (λ e, _get_text self e attribute) <$> training_examples in
  let indexed_training_samples := enumerate texts in
  let attribute_document_list := reorder_batch self indexed_training_samples in
  snd <$> attribute_document_list.

Definition _docs_for_training_examples (self : SpacyNLP)
    (training_examples : list Message) : gmap string (list item) :=
  foldl (λ attribute_docs attribute,
           <[attribute := docs_for_attribute self training_examples attribute]>
             attribute_docs)
        ∅ DENSE_FEATURIZABLE_ATTRIBUTES.

(** The body of the inner loop of [train], for the example at [idx]. *)
Definition train_example (attribute_docs : gmap string (list item))
    (attribute : string) (idx : nat) (example : Message) : result Message :=
  docs ← match attribute_docs !! attribute with
         | Some docs => Ok docs
         | None => Raise (Exn KeyError attribute)
         end;
  example_attribute_doc ←
    match docs !! idx with
    | Some d => Ok d
    | None => Raise (Exn IndexError "list index out of range")
    end;
  if (0 <? len example_attribute_doc)%nat
  then key ← spacy_docs_key attribute;
       Ok (msg_set example key example_attribute_doc)
  else Ok example.

(** The inner loop: the examples from position [idx] on. *)
Fixpoint train_examples (attribute_docs : gmap string (list item))
    (attribute : string) (idx : nat) (examples : list Message)
    : result (list Message) :=
  match examples with
  | [] => Ok []
  | example :: rest =>
      example' ← train_example attribute_docs attribute idx example;
      rest' ← train_examples attribute_docs attribute (S idx) rest;
      Ok (example' :: rest')
  end.

(** The outer loop over the attributes still to do. *)
Fixpoint train_attributes (attribute_docs : gmap string (list item))
    (attributes : list string) (examples : list Message)
    : result (list Message) :=
  match attributes with
  | [] => Ok examples
  | attribute :: rest =>
      examples' ← train_examples attribute_docs attribute 0 examples;
      train_attributes attribute_docs rest examples'
  end.

(** [train]: the examples of the training data after the call. *)
Definition train (self : SpacyNLP) (training_examples : list Message)
    : result (list Message) :=
  let attribute_docs := _docs_for_training_examples self training_examples in
  train_attributes attribute_docs DENSE_FEATURIZABLE_ATTRIBUTES
    training_examples.

(** What one round of the inner loop leaves of the example at [idx] when it
    raises nothing; used to state what [train] computes. *)
Definition attach (attribute_docs : gmap string (list item))
    (attribute : string) (idx : nat) (example : Message) : Message :=
  match attribute_docs !! attribute, SPACY_DOCS !! attribute with
  | Some docs, Some key =>
      match docs !! idx with
      | Some rep =>
          if (0 <? len rep)%nat then msg_set example key rep else example
      | None => example
      end
  | _, _ => example
  end.

(** ** Inference

    The state of [process] is the message together with the texts that were
    sent to the model so far. *)

Definition process_attribute (self : SpacyNLP)
    (st : Message * list string) (attribute : string)
    : result (Message * list string) :=
  let '(message, calls) := st in
  match msg_get message attribute with
  | None => Ok (message, calls)
  | Some text =>
      if String.eqb text "" then Ok (message, calls)
      else
        key ← spacy_docs_key attribute;
        Ok (msg_set message key (DocItem (_doc_for_text self text)),
            calls ++ [_preprocess_text self (Some text)])
  end.

Fixpoint process_attributes (self : SpacyNLP) (attributes : list string)
    (st : Message * list string) : result (Message * list string) :=
  match attributes with
  | [] => Ok st
  | attribute :: rest =>
      st' ← process_attribute self st attribute;
      process_attributes self rest st'
  end.

Definition process (self : SpacyNLP) (message : Message)
    : result (Message * list string) :=
  process_attributes self DENSE_FEATURIZABLE_ATTRIBUTES (message, []).

(** The text that [process] sends to the model for an attribute, if any;
    used to state which calls [process] makes. *)
Definition text_sent (self : SpacyNLP) (message : Message)
    (attribute : string) : option string :=
  match msg_get message attribute with
  | None => None
  | Some text =>
      if String.eqb text "" then None
      else Some (_preprocess_text self (Some text))
  end.

(** ** Loading and validating the model *)

Definition not_linked_message (spacy_model_name : string) : string :=
  "Model '" +:+ spacy_model_name +:+ "' is not a linked spaCy model.  " +:+
  "Please download and/or link a spaCy model, " +:+
  "e.g. by running:" +:+ newline +:+ "python -m spacy download " +:+
  "en_core_web_md" +:+ newline +:+ "python -m spacy link " +:+
  "en_core_web_md en".

(** [_load_model], with the globals of the module and the external loader
    [spacy.load] made explicit. *)
Definition _load_model_in (globals : gmap string exc_class)
    (spacy_load : string → result Language) (spacy_model_name : string)
    : result Language :=
  match spacy_load spacy_model_name with
  | Ok model => Ok model
  | Raise e =>
      if decide (exn_class e = OSError)
      then raise_named globals "InvalidModelError"
             (not_linked_message spacy_model_name)
      else Raise e
  end.

Definition _load_model (spacy_load : string → result Language)
    (spacy_model_name : string) : result Language :=
  _load_model_in (module_exceptions typing_TYPE_CHECKING) spacy_load
    spacy_model_name.

Definition _ensure_proper_language_model (nlp : option Language)
    : result unit :=
  let globals := module_exceptions typing_TYPE_CHECKING in
  match nlp with
  | None =>
      raise_named globals "Exception"
        ("Failed to load spacy language model. " +:+
         "Loading the model returned 'None'.")
  | Some nlp =>
      match path nlp with
      | None =>
          raise_named globals "Exception"
            ("Failed to load spacy language model for " +:+
             "lang '" +:+ lang nlp +:+ "'. Make sure you have downloaded the " +:+
             "correct model (https://spacy.io/docs/usage/).")
      | Some _ => Ok ()
      end
  end.

End SpacyNLP.

(** ** Model name and cache key *)

(** The class attribute [defaults]. *)
Definition defaults : gmap string pyval :=
  {[ "model" := PyNone; "case_sensitive" := PyBool false ]}.

(** The resolution of the model name in [create]: the name that is loaded,
    and the component configuration afterwards. *)
Definition resolve_model_name (component_config : gmap string pyval)
    (language : string) : pyval * gmap string pyval :=
  let spacy_model_name := dict_get component_config "model" in
  if negb (truthy spacy_model_name)
  then (PyStr language, <["model" := PyStr language]> component_config)
  else (spacy_model_name, component_config).

(** [cache_key]: [name] is the class attribute [cls.name], [language] is
    [model_metadata.language]. *)
Definition cache_key (name : string) (component_meta : gmap string pyval)
    (language : string) : result pyval :=
  let spacy_model_name :=
    dict_get_default component_meta "model" (PyStr language) in
  prefix ← str_add (PyStr name) (PyStr "-");
  str_add prefix spacy_model_name.

(** ** Creating and loading the component *)

(** [str(v)], as [format] renders a value. *)
Definition py_str (v : pyval) : string :=
  match v with
  | PyNone => "None"
  | PyBool true => "True"
  | PyBool false => "False"
  | PyStr s => s
  end.

Section Lifecycle.

Context {Token : Type}.

(** Not among the sources, and taken as they come: the function
    [rasa.utils.train_utils.override_defaults], the configuration that the
    constructor of the parent class [Component] stores for the one it is
    given, and the external loader [spacy.load], which receives whatever
    value the configuration holds and returns a language object or raises. *)
Context (override_defaults :
           gmap string pyval → gmap string pyval → gmap string pyval).
Context (component_init : gmap string pyval → gmap string pyval).
Context (spacy_load : pyval → result (@Language Token)).

(** [__init__]: the model is stored, the configuration goes to the parent. *)
Definition new_component (component_config : gmap string pyval)
    (nlp : @Language Token) : @SpacyNLP Token :=
  {| component_config := component_init component_config; nlp := nlp |}.

(** [_load_model] on a value of the configuration: the loader gets the
    value, the message of the error formats it. *)
Definition load_model_value (spacy_model_name : pyval)
    : result (@Language Token) :=
  _load_model (λ _, spacy_load spacy_model_name) (py_str spacy_model_name).

(** [create]; the call of [logger.info] leaves no trace in the result. *)
Definition create (component_config : gmap string pyval) (language : string)
    : result (@SpacyNLP Token) :=
  let component_config := override_defaults defaults component_config in
  let '(spacy_model_name, component_config) :=
    resolve_model_name component_config language in
  nlp ← load_model_value spacy_model_name;
  _ ← _ensure_proper_language_model (Some nlp);
  Ok (new_component component_config nlp).

(** [load]: [cached_component] is [None] or a component. *)
Definition load (meta : gmap string pyval)
    (cached_component : option (@SpacyNLP Token))
    : result (@SpacyNLP Token) :=
  match cached_component with
  | Some component => Ok component
  | None =>
      let model_name := dict_get meta "model" in
      nlp ← load_model_value model_name;
      _ ← _ensure_proper_language_model (Some nlp);
      Ok (new_component meta nlp)
  end.

End Lifecycle.

(** ** Specification vocabulary *)

(** [interleaving a b l]: the list [l] is made of the elements of [a] and of
    [b], each occurrence of [l] going to exactly one of the two, and both
    [a] and [b] keep the order the elements have in [l]. *)
Inductive interleaving {A} : list A → list A → list A → Prop :=
  | interleaving_nil : interleaving [] [] []
  | interleaving_left x a b l :
      interleaving a b l → interleaving (x :: a) b (x :: l)
  | interleaving_right x a b l :
      interleaving a b l → interleaving a (x :: b) (x :: l).







(** ** A sample installation

    A model that turns each text into a Doc of one token, the text itself; a
    model whose batch call returns one Doc only; the attributes and keys of
    a pipeline; two messages. *)

Definition sample_model : @Language string :=
  {| path := Some "/usr/lib/python3/site-packages/en_core_web_md";
     lang := "en";
     call := λ text, [text];
     pipe := fmap (λ text, [text]) |}.

Definition short_model : @Language string :=
  {| path := path sample_model;
     lang := lang sample_model;
     call := call sample_model;
     pipe := λ texts, take 1 (pipe sample_model texts) |}.

Definition sample_component : @SpacyNLP string :=
  {| component_config := {[ "model" := PyStr "en";
                            "case_sensitive" := PyBool false ]};
     nlp := sample_model |}.

Definition short_component : @SpacyNLP string :=
  {| component_config := component_config sample_component;
     nlp := short_model |}.

(** A loader that knows no model: [spacy.load] raises [OSError]. *)
Definition missing_loader (spacy_model_name : string)
    : result (@Language string) :=
  Raise (Exn OSError
           ("[E050] Can't find model '" +:+ spacy_model_name +:+ "'.")).

Definition sample_attributes : list string :=
  ["text"; "response"; "action_text"].

Definition sample_spacy_docs : gmap string string :=
  {[ "text" := "text_spacy_doc";
     "response" := "response_spacy_doc";
     "action_text" := "action_text_spacy_doc" ]}.

Definition sample_batch : list (Z * string) :=
  [(0, "hello"); (1, ""); (2, "world")]%Z.

Definition greeting : @Message string :=
  {| data := {[ "text" := "HELLO" ]}; representations := ∅ |}.

Definition reply : @Message string :=
  {| data := {[ "text" := ""; "response" := "Hi There" ]};
     representations := ∅ |}.

Definition farewell : @Message string :=
  {| data := {[ "text" := "Bye" ]}; representations := ∅ |}.

(** A loader that knows the model [en] only; defaults overridden entry by
    entry; a parent constructor that adds the name of the component. *)
Definition sample_loader (spacy_model_name : pyval)
    : result (@Language string) :=
  if decide (spacy_model_name = PyStr "en") then Ok sample_model
  else Raise (Exn OSError
                ("[E050] Can't find model '" +:+ py_str spacy_model_name
                 +:+ "'.")).

Definition sample_override_defaults (defaults custom : gmap string pyval)
    : gmap string pyval :=
  custom ∪ defaults.

Definition sample_component_init (component_config : gmap string pyval)
    : gmap string pyval :=
  sample_override_defaults defaults
    (<["name" := PyStr "SpacyNLP"]> component_config).

(** Case analysis on a member of the sample attributes. *)
Ltac sample_attribute_cases H :=
  unfold sample_attributes in H;
  repeat (apply elem_of_cons in H as [->|H]);
  [..|by apply elem_of_nil in H].

(** Membership of a given attribute in the sample attributes. *)
Ltac sample_attribute_member :=
  unfold sample_attributes;
  repeat (apply elem_of_cons; first [left; reflexivity | right]).

(** * Properties *)

Section Partition.

Implicit Types (l : list (Z * string)) (s : Z * string).

Lemma filter_interleaving l :
  interleaving (filter (λ s, s.2 ≠ "") l) (filter (λ s, s.2 = "") l) l.
Proof.
  induction l as [|s l IH]; simpl; [constructor|].
  rewrite !filter_cons.
  destruct (decide (s.2 = "")) as [He|Hne].
  - rewrite decide_False by (intros Hn; apply Hn, He).
    by apply interleaving_right.
  - rewrite decide_True by done. by apply interleaving_left.
Qed.

(** C2.  The partition step returns the samples whose text is not the empty
    string and the samples whose text is the empty string; the input is an
    interleaving of the two (so each keeps the relative order of the input,
    and every input sample goes to exactly one of them); the batch
    [(0,"hello"), (1,""), (2,"world")] is split into
    [(0,"hello"), (2,"world")] and [(1,"")]. *)
Theorem filter_training_samples_by_content_partition l :
  let '(docs_to_pipe, empty_docs) := _filter_training_samples_by_content l in
  Forall (λ s, s.2 ≠ "") docs_to_pipe ∧
  Forall (λ s, s.2 = "") empty_docs ∧
  interleaving docs_to_pipe empty_docs l ∧
  (docs_to_pipe `sublist_of` l) ∧ (empty_docs `sublist_of` l) ∧
  (∀ s, s ∈ l → (s ∈ docs_to_pipe ∧ s ∉ empty_docs) ∨
                  ((s ∉ docs_to_pipe) ∧ s ∈ empty_docs)) ∧
  length docs_to_pipe + length empty_docs = length l ∧
  _filter_training_samples_by_content [(0, "hello"); (1, ""); (2, "world")]%Z
    = ([(0, "hello"); (2, "world")]%Z, [(1, "")]%Z).
Proof.
  unfold _filter_training_samples_by_content; simpl.
  split_and!.
  - apply Forall_forall. intros s Hs. apply list_elem_of_filter in Hs. tauto.
  - apply Forall_forall. intros s Hs. apply list_elem_of_filter in Hs. tauto.
  - apply filter_interleaving.
  - apply sublist_filter.
  - apply sublist_filter.
  - intros s Hs. rewrite !list_elem_of_filter.
    destruct (decide (s.2 = "")); tauto.
  - induction l as [|s l IH]; [done|]. rewrite !filter_cons.
    destruct (decide (s.2 = "")) as [He|Hne].
    + rewrite decide_False by (intros Hn; apply Hn, He). simpl in *. lia.
    + rewrite decide_True by done. simpl in *. lia.
  - reflexivity.
Qed.

End Partition.

Section Components.

Context {Token : Type}.
Abbreviation Doc := (@Doc Token).
Abbreviation Language := (@Language Token).
Abbreviation SpacyNLP := (@SpacyNLP Token).
Abbreviation item := (@item Token).

Implicit Types (self : SpacyNLP) (samples : list (Z * string)).

(** *** Text preprocessing *)

Lemma lower_empty : lower "" = "".
Proof. reflexivity. Qed.







(** *** Dictionaries and sorting *)

Lemma foldl_insert_foldr {V} (pairs : list (Z * V)) (d : gmap Z V) :
  foldl (λ d p, <[p.1 := p.2]> d) d pairs
  = foldr (λ p, <[p.1 := p.2]>) d (reverse pairs).
Proof.
  revert d. induction pairs as [|p pairs IH]; intros d; [done|].
  rewrite reverse_cons, foldr_app. simpl. apply IH.
Qed.

(** [dict] keeps, for each key, the last of its pairs. *)
Lemma dict_list_to_map {V} (pairs : list (Z * V)) :
  dict pairs = list_to_map (reverse pairs).
Proof. apply foldl_insert_foldr. Qed.

Lemma elem_of_dom_dict {V} (pairs : list (Z * V)) (k : Z) :
  k ∈ dom (dict pairs) ↔ k ∈ pairs.*1.
Proof.
  rewrite dict_list_to_map, dom_list_to_map_L, elem_of_list_to_set.
  by rewrite fmap_reverse, elem_of_reverse.
Qed.

Global Instance key_le_trans {V} : Transitive (@key_le V).
Proof. unfold key_le. intros a b c. lia. Qed.

Global Instance key_le_total {V} : Total (@key_le V).
Proof. unfold key_le. intros a b. lia. Qed.

Lemma sorted_items_Permutation {V} (d : gmap Z V) :
  sorted_items d ≡ₚ map_to_list d.
Proof. apply merge_sort_Permutation. Qed.

Lemma elem_of_sorted_items {V} (d : gmap Z V) (k : Z) (v : V) :
  (k, v) ∈ sorted_items d ↔ d !! k = Some v.
Proof. by rewrite sorted_items_Permutation, elem_of_map_to_list. Qed.

Lemma sorted_items_keys_sorted {V} (d : gmap Z V) :
  StronglySorted Z.le (sorted_items d).*1.
Proof.
  apply (StronglySorted_fmap _ key_le); [done|].
  apply StronglySorted_merge_sort; apply _.
Qed.

Lemma sorted_items_keys_NoDup {V} (d : gmap Z V) : NoDup (sorted_items d).*1.
Proof.
  rewrite sorted_items_Permutation. apply NoDup_fst_map_to_list.
Qed.

Lemma elem_of_sorted_items_keys {V} (d : gmap Z V) (k : Z) :
  k ∈ (sorted_items d).*1 ↔ k ∈ dom d.
Proof.
  rewrite elem_of_dom, list_elem_of_fmap. split.
  - intros [[k' v] [-> Hin]]. apply elem_of_sorted_items in Hin. by exists v.
  - intros [v Hv]. exists (k, v). split; [done|]. by apply elem_of_sorted_items.
Qed.

(** The sorted items of a dictionary list its keys in ascending order: any
    ascending duplicate-free list with the same keys is that list. *)
Lemma sorted_items_keys_eq {V} (d : gmap Z V) (keys : list Z) :
  StronglySorted Z.le keys → NoDup keys → (∀ k, k ∈ keys ↔ k ∈ dom d) →
  (sorted_items d).*1 = keys.
Proof.
  intros Hsorted Hnd Hdom.
  apply (StronglySorted_unique Z.le); [apply sorted_items_keys_sorted|done|].
  apply NoDup_Permutation; [apply sorted_items_keys_NoDup|done|].
  intros k. by rewrite elem_of_sorted_items_keys, Hdom.
Qed.

Lemma seqZ_sorted (m : Z) (n : nat) : StronglySorted Z.le (seqZ m (Z.of_nat n)).
Proof.
  revert m. induction n as [|n IH]; intros m.
  - rewrite seqZ_nil by done. constructor.
  - rewrite seqZ_cons by lia. replace (Z.pred (Z.of_nat (S n))) with (Z.of_nat n) by lia.
    constructor; [apply IH|]. apply Forall_seqZ. lia.
Qed.

(** *** Processing the content-bearing samples *)

Lemma process_content_bearing_lookup self samples (i : nat) :
  _process_content_bearing_samples self samples !! i =
    match samples !! i, pipe (nlp self) (samples.*2) !! i with
    | Some sample, Some doc => Some (sample.1, doc)
    | _, _ => None
    end.
Proof.
  unfold _process_content_bearing_samples.
  rewrite list_lookup_fmap, lookup_zip_with.
  destruct (samples !! i); simpl; [|done].
  by destruct (pipe (nlp self) samples.*2 !! i).
Qed.

(** C9.  The content-processing step pairs the sample at position [i] with
    the Doc that the batch call returned at position [i]; its result is as
    long as the shorter of the two lists, whatever the number of Docs that
    the batch call returned, and it is a plain list: nothing is raised. *)
Theorem process_content_bearing_samples_zip self samples :
  let docs := pipe (nlp self) (samples.*2) in
  let out := _process_content_bearing_samples self samples in
  length out = length samples `min` length docs ∧
  ∀ i : nat,
    out !! i =
      match samples !! i, docs !! i with
      | Some sample, Some doc => Some (sample.1, doc)
      | _, _ => None
      end.
Proof.
  cbv zeta. split.
  - unfold _process_content_bearing_samples.
    by rewrite length_fmap, length_zip.
  - apply process_content_bearing_lookup.
Qed.

Lemma process_content_bearing_keys self samples :
  (_process_content_bearing_samples self samples).*1 =
    take (length (pipe (nlp self) (samples.*2))) (samples.*1).
Proof.
  apply list_eq. intros i.
  rewrite list_lookup_fmap, process_content_bearing_lookup.
  destruct (decide (i < length (pipe (nlp self) samples.*2))) as [Hlt|Hge].
  - rewrite lookup_take_lt, list_lookup_fmap by done.
    destruct (lookup_lt_is_Some_2 _ _ Hlt) as [doc ->].
    by destruct (samples !! i).
  - rewrite lookup_take_ge by lia.
    rewrite (lookup_ge_None_2 (pipe _ _)) by lia.
    by destruct (samples !! i).
Qed.

(** *** Processing the empty samples *)

Lemma process_non_content_bearing_samples_eq self samples :
  _process_non_content_bearing_samples self samples =
    (λ sample, (sample.1, empty_Doc)) <$> samples.
Proof.
  unfold _process_non_content_bearing_samples.
  induction samples as [|sample samples IH]; [done|].
  csimpl. f_equal. exact IH.
Qed.

Lemma process_non_content_bearing_keys self samples :
  (_process_non_content_bearing_samples self samples).*1 = samples.*1.
Proof.
  rewrite process_non_content_bearing_samples_eq, <- list_fmap_compose.
  by apply list_fmap_ext.
Qed.

(** *** Merging *)

Lemma fst_prod_map_id {A B C} (f : B → C) (l : list (A * B)) :
  (prod_map id f <$> l).*1 = l.*1.
Proof. rewrite <- list_fmap_compose. by apply list_fmap_ext; intros ? []. Qed.

(** The keys of the merged list are the indices of the samples, whatever
    Docs come with them, as long as they come with indices of samples. *)
Lemma merge_content_lists_keys samples (doc_lists : list (Z * Doc)) :
  StronglySorted Z.le samples.*1 → NoDup samples.*1 →
  (∀ k, k ∈ doc_lists.*1 → k ∈ samples.*1) →
  (_merge_content_lists samples doc_lists).*1 = samples.*1.
Proof.
  intros Hsorted Hnd Hsub. unfold _merge_content_lists, dict_update.
  apply sorted_items_keys_eq; [done..|]. intros k.
  rewrite dom_union_L, elem_of_union, !elem_of_dom_dict, !fst_prod_map_id.
  specialize (Hsub k). tauto.
Qed.

Lemma reorder_batch_doc_keys self samples (k : Z) :
  let '(samples_to_pipe, empty_samples) :=
    _filter_training_samples_by_content samples in
  k ∈ (_process_content_bearing_samples self samples_to_pipe ++
       _process_non_content_bearing_samples self empty_samples).*1 →
  k ∈ samples.*1.
Proof.
  unfold _filter_training_samples_by_content. cbv zeta.
  rewrite fmap_app, elem_of_app, process_content_bearing_keys,
    process_non_content_bearing_keys.
  intros [Hk%subseteq_take|Hk].
  - apply list_elem_of_fmap in Hk as [s [-> Hs]].
    apply list_elem_of_filter in Hs as [_ Hs]. by apply list_elem_of_fmap_2.
  - apply list_elem_of_fmap in Hk as [s [-> Hs]].
    apply list_elem_of_filter in Hs as [_ Hs]. by apply list_elem_of_fmap_2.
Qed.

Lemma reorder_batch_keys self samples :
  samples.*1 = seqZ 0 (Z.of_nat (length samples)) →
  (reorder_batch self samples).*1 = samples.*1.
Proof.
  intros Hdense. unfold reorder_batch.
  pose proof (reorder_batch_doc_keys self samples) as Hsub.
  destruct (_filter_training_samples_by_content samples)
    as [samples_to_pipe empty_samples].
  apply merge_content_lists_keys; [| |intros k; apply Hsub].
  - rewrite Hdense. apply seqZ_sorted.
  - rewrite Hdense. apply NoDup_seqZ.
Qed.

(** C1.  For a batch whose indices are [0], [1], ..., [n-1] in this order,
    the merged output of the batch pipeline (partition, processing of the
    two parts, merge) has exactly these indices in this order, whatever the
    split into empty and non-empty samples and whatever the batch call
    returns: it is sorted ascending by index, it has one entry per input
    index, and it is as long as the input. *)
Theorem reorder_batch_keeps_input_order self samples :
  samples.*1 = seqZ 0 (Z.of_nat (length samples)) →
  let merged := reorder_batch self samples in
  merged.*1 = samples.*1 ∧
  StronglySorted Z.le merged.*1 ∧ NoDup merged.*1 ∧
  length merged = length samples.
Proof.
  intros Hdense. cbv zeta.
  pose proof (reorder_batch_keys self samples Hdense) as Hkeys.
  split_and!; [done| | |].
  - rewrite Hkeys, Hdense. apply seqZ_sorted.
  - rewrite Hkeys, Hdense. apply NoDup_seqZ.
  - by rewrite <- (length_fmap fst), Hkeys, length_fmap.
Qed.

(** The value that [dict] gives to a key that occurs in the last part of the
    pairs, when all its pairs there carry the same value. *)
Lemma foldl_insert_lookup {V} (pairs : list (Z * V)) (d : gmap Z V) k v :
  d !! k = Some v ∨ k ∈ pairs.*1 →
  Forall (λ p, p.1 = k → p.2 = v) pairs →
  foldl (λ d p, <[p.1 := p.2]> d) d pairs !! k = Some v.
Proof.
  revert d. induction pairs as [|p pairs IH]; intros d Hk Hall; simpl.
  - destruct Hk as [Hk|Hk]; [done|]. by apply elem_of_nil in Hk.
  - apply Forall_cons in Hall as [Hp Hall]. apply IH; [|done].
    destruct (decide (p.1 = k)) as [Heq|Hne].
    + left. rewrite Heq, (Hp Heq). apply lookup_insert_eq.
    + rewrite lookup_insert_ne by done.
      destruct Hk as [Hk|Hk]; [by left|right].
      simpl in Hk. apply elem_of_cons in Hk as [Hk|Hk]; [congruence|done].
Qed.

Lemma dict_app_lookup {V} (front back : list (Z * V)) k v :
  k ∈ back.*1 → Forall (λ p, p.1 = k → p.2 = v) back →
  dict (front ++ back) !! k = Some v.
Proof.
  intros Hk Hall. unfold dict. rewrite foldl_app.
  apply foldl_insert_lookup; auto.
Qed.

(** An empty sample is merged with the empty Doc, whatever the batch call
    returns. *)
Lemma reorder_batch_empty_sample self samples (idx : nat) (k : Z) :
  samples.*1 = seqZ 0 (Z.of_nat (length samples)) →
  samples !! idx = Some (k, "") →
  reorder_batch self samples !! idx = Some (k, DocItem empty_Doc).
Proof.
  intros Hdense Hidx.
  pose proof (reorder_batch_keys self samples Hdense) as Hkeys.
  assert ((reorder_batch self samples).*1 !! idx = Some k) as Hk.
  { by rewrite Hkeys, list_lookup_fmap, Hidx. }
  rewrite list_lookup_fmap in Hk.
  destruct (reorder_batch self samples !! idx) as [[k' v]|] eqn:Hm;
    [|done].
  simpl in Hk. injection Hk as ->. f_equal. f_equal.
  apply list_elem_of_lookup_2 in Hm. revert Hm.
  unfold reorder_batch, _filter_training_samples_by_content,
    _merge_content_lists, dict_update.
  rewrite elem_of_sorted_items. intros Hv.
  assert (dict (prod_map id DocItem <$>
            (_process_content_bearing_samples self
               (filter (λ s : Z * string, s.2 ≠ "") samples) ++
             _process_non_content_bearing_samples self
               (filter (λ s : Z * string, s.2 = "") samples))) !! k
          = Some (DocItem empty_Doc)) as Hd.
  { rewrite fmap_app. apply dict_app_lookup.
    - rewrite fst_prod_map_id, process_non_content_bearing_keys.
      apply (list_elem_of_fmap_2' _ _ (k, "")); [|done].
      apply list_elem_of_filter. split; [done|].
      by eapply list_elem_of_lookup_2.
    - rewrite process_non_content_bearing_samples_eq.
      apply Forall_forall. intros p Hp _.
      apply list_elem_of_fmap in Hp as [q [-> Hq]].
      by apply list_elem_of_fmap in Hq as [s [-> _]]. }
  rewrite (lookup_union_Some_l _ _ _ _ Hd) in Hv. congruence.
Qed.

(** *** Training *)

Section Training.

Context (ATTRS : list string) (SD : gmap string string).

Implicit Types (examples : list (@Message Token)) (example : @Message Token).
Implicit Types (attribute_docs : gmap string (list item)).

Lemma enumerate_keys {A} (xs : list A) :
  (enumerate xs).*1 = seqZ 0 (Z.of_nat (length xs)).
Proof.
  apply list_eq. intros i. unfold enumerate.
  rewrite list_lookup_fmap, list_lookup_imap.
  destruct (xs !! i) as [x|] eqn:Hx; simpl.
  - apply lookup_lt_Some in Hx. by rewrite lookup_seqZ_lt by lia.
  - apply lookup_ge_None in Hx. by rewrite lookup_seqZ_ge by lia.
Qed.

Lemma enumerate_dense {A} (xs : list A) :
  (enumerate xs).*1 = seqZ 0 (Z.of_nat (length (enumerate xs))).
Proof. unfold enumerate at 2. rewrite length_imap. apply enumerate_keys. Qed.

Lemma docs_for_attribute_length self examples attribute :
  length (docs_for_attribute self examples attribute) = length examples.
Proof.
  unfold docs_for_attribute.
  rewrite length_fmap, <- (length_fmap fst), reorder_batch_keys
    by apply enumerate_dense.
  unfold enumerate. by rewrite length_fmap, length_imap, length_fmap.
Qed.

Lemma preprocess_text_empty self (text : option string) :
  text = None ∨ text = Some "" → _preprocess_text self text = "".
Proof.
  unfold _preprocess_text. intros [->| ->];
    by destruct (truthy (dict_get (component_config self) "case_sensitive")).
Qed.

Lemma docs_for_attribute_empty self examples attribute (idx : nat) example :
  examples !! idx = Some example →
  msg_get example attribute = None ∨ msg_get example attribute = Some "" →
  docs_for_attribute self examples attribute !! idx
  = Some (DocItem empty_Doc).
Proof.
  intros Hidx Htext. unfold docs_for_attribute.
  rewrite list_lookup_fmap.
  rewrite (reorder_batch_empty_sample _ _ idx (Z.of_nat idx));
    [done|apply enumerate_dense|].
  unfold enumerate. rewrite list_lookup_imap, list_lookup_fmap, Hidx. simpl.
  unfold _get_text. by rewrite preprocess_text_empty.
Qed.

Lemma docs_for_training_examples_lookup self examples attribute :
  attribute ∈ ATTRS →
  _docs_for_training_examples ATTRS self examples !! attribute
  = Some (docs_for_attribute self examples attribute).
Proof.
  unfold _docs_for_training_examples. generalize (∅ : gmap string (list item)).
  intros d Hin.
  assert (attribute ∈ ATTRS ∨
          d !! attribute = Some (docs_for_attribute self examples attribute))
    as Hinv by (by left).
  clear Hin. revert d Hinv.
  induction ATTRS as [|a attrs IH]; intros d Hinv; simpl.
  - destruct Hinv as [Hin|Hd]; [by apply elem_of_nil in Hin|done].
  - apply IH. destruct (decide (a = attribute)) as [->|Hne].
    + right. apply lookup_insert_eq.
    + rewrite lookup_insert_ne by done.
      destruct Hinv as [Hin|Hd]; [left|by right].
      apply elem_of_cons in Hin as [Heq|Hin]; [congruence|done].
Qed.

Lemma train_example_attach attribute_docs attribute docs idx example :
  attribute_docs !! attribute = Some docs →
  is_Some (docs !! idx) → is_Some (SD !! attribute) →
  train_example SD attribute_docs attribute idx example
  = Ok (attach SD attribute_docs attribute idx example).
Proof.
  intros Hdocs [rep Hrep] [key Hkey].
  unfold train_example, attach, spacy_docs_key.
  rewrite Hdocs, Hkey. simpl. rewrite Hrep. simpl.
  by destruct (0 <? len rep).
Qed.

Lemma train_examples_attach attribute_docs attribute docs idx examples :
  attribute_docs !! attribute = Some docs →
  idx + length examples ≤ length docs → is_Some (SD !! attribute) →
  train_examples SD attribute_docs attribute idx examples
  = Ok (imap (λ i, attach SD attribute_docs attribute (idx + i)) examples).
Proof.
  intros Hdocs Hlen Hkey. revert idx Hlen.
  induction examples as [|example examples IH]; intros idx Hlen; [done|].
  simpl in *.
  rewrite (train_example_attach _ _ docs); [|done| |done].
  - simpl. rewrite IH by lia. simpl. rewrite Nat.add_0_r. do 2 f_equal.
    apply imap_ext. intros i e _. simpl. f_equal. lia.
  - apply lookup_lt_is_Some_2. lia.
Qed.

Lemma imap_imap {A B C} (f : nat → B → C) (g : nat → A → B) (l : list A) :
  imap f (imap g l) = imap (λ i x, f i (g i x)) l.
Proof.
  apply list_eq. intros i. rewrite !list_lookup_imap.
  by destruct (l !! i).
Qed.

Lemma train_attributes_attach attribute_docs (attrs : list string) examples :
  (∀ a, a ∈ attrs →
     is_Some (SD !! a) ∧
     ∃ docs, attribute_docs !! a = Some docs ∧ length examples ≤ length docs) →
  train_attributes SD attribute_docs attrs examples
  = Ok (imap (λ i example,
                foldl (λ e a, attach SD attribute_docs a i e) example attrs)
             examples).
Proof.
  revert examples.
  induction attrs as [|a attrs IH]; intros examples Hattrs; simpl.
  - f_equal. symmetry. apply list_eq. intros i. rewrite list_lookup_imap.
    by destruct (examples !! i).
  - destruct (Hattrs a) as [Hkey [docs [Hdocs Hlen]]]; [by left|].
    rewrite (train_examples_attach _ _ docs) by done. simpl.
    rewrite IH.
    + by rewrite imap_imap.
    + intros a' Ha'. rewrite length_imap. apply Hattrs. by right.
Qed.

Lemma attach_data attribute_docs attribute idx example :
  data (attach SD attribute_docs attribute idx example) = data example.
Proof.
  unfold attach.
  destruct (attribute_docs !! attribute) as [docs|]; [|done].
  destruct (SD !! attribute); [|done].
  destruct (docs !! idx) as [rep|]; [|done].
  by destruct (0 <? len rep).
Qed.

Lemma attach_other_key attribute_docs attribute idx example (key : string) :
  SD !! attribute ≠ Some key →
  representations (attach SD attribute_docs attribute idx example) !! key
  = representations example !! key.
Proof.
  intros Hkey. unfold attach.
  destruct (attribute_docs !! attribute) as [docs|]; [|done].
  destruct (SD !! attribute) as [key'|]; [|done].
  destruct (docs !! idx) as [rep|]; [|done].
  destruct (0 <? len rep); [|done].
  simpl. apply lookup_insert_ne. congruence.
Qed.

Lemma attach_key attribute_docs attribute docs idx example key rep :
  attribute_docs !! attribute = Some docs → SD !! attribute = Some key →
  docs !! idx = Some rep →
  representations (attach SD attribute_docs attribute idx example) !! key
  = if (0 <? len rep)%nat then Some rep
    else representations example !! key.
Proof.
  intros Hdocs Hkey Hrep. unfold attach. rewrite Hdocs, Hkey, Hrep.
  destruct (0 <? len rep); [|done]. apply lookup_insert_eq.
Qed.

Lemma attach_all_data attribute_docs (attrs : list string) idx example :
  data (foldl (λ e a, attach SD attribute_docs a idx e) example attrs)
  = data example.
Proof.
  revert example. induction attrs as [|a attrs IH]; intros example; [done|].
  simpl. by rewrite IH, attach_data.
Qed.

Lemma attach_all_other_key attribute_docs (attrs : list string) idx example
    (key : string) :
  (∀ a, a ∈ attrs → SD !! a ≠ Some key) →
  representations
    (foldl (λ e a, attach SD attribute_docs a idx e) example attrs) !! key
  = representations example !! key.
Proof.
  revert example. induction attrs as [|a attrs IH]; intros example Hkeys;
    [done|].
  simpl. rewrite IH by (intros a' Ha'; apply Hkeys; by right).
  apply attach_other_key, Hkeys. by left.
Qed.

Lemma attach_all_key attribute_docs (attrs : list string) idx example
    attribute docs key rep :
  (∀ a, a ∈ attrs → SD !! a = Some key → a = attribute) →
  attribute ∈ attrs →
  attribute_docs !! attribute = Some docs → SD !! attribute = Some key →
  docs !! idx = Some rep →
  representations
    (foldl (λ e a, attach SD attribute_docs a idx e) example attrs) !! key
  = if (0 <? len rep)%nat then Some rep
    else representations example !! key.
Proof.
  intros Hinj Hin Hdocs Hkey Hrep. revert example Hinj Hin.
  induction attrs as [|a attrs IH]; intros example Hinj Hin.
  { by apply elem_of_nil in Hin. }
  simpl.
  assert (representations (attach SD attribute_docs a idx example) !! key
          = (if (0 <? len rep)%nat then Some rep
             else representations example !! key)
          ∨ (a ≠ attribute ∧
             representations (attach SD attribute_docs a idx example) !! key
             = representations example !! key)) as Hhead.
  { destruct (decide (a = attribute)) as [->|Hne].
    - left. by apply (attach_key _ _ docs).
    - right. split; [done|]. apply attach_other_key.
      intros Ha. apply Hne, Hinj; [by left|done]. }
  destruct (decide (attribute ∈ attrs)) as [Hrest|Hrest].
  - rewrite IH; [|intros a' Ha'; apply Hinj; by right|done].
    destruct (0 <? len rep); [done|].
    destruct Hhead as [Hhead|[_ Hhead]]; by rewrite Hhead.
  - rewrite attach_all_other_key.
    + destruct Hhead as [Hhead|[Hne _]]; [done|].
      apply elem_of_cons in Hin as [Heq|Hin]; [congruence|done].
    + intros a' Ha' Hkey'. apply Hrest.
      rewrite <- (Hinj a'); [done|by right|done].
Qed.

(** C8.  [train] attaches to each example, under the key of each attribute,
    the representation computed for this example and attribute exactly when
    its length is positive; when the length is zero the entry under this key
    is the one the example had before.  The representation of an example
    whose text is absent or empty is the empty Doc, of length zero.  The
    text attributes of the example, and the entries under all other keys,
    are unchanged.  [train] raises nothing. *)
Theorem train_attaches_nonempty_docs self examples :
  (∀ a, a ∈ ATTRS → is_Some (SD !! a)) →
  (∀ a a' key, a ∈ ATTRS → a' ∈ ATTRS →
     SD !! a = Some key → SD !! a' = Some key → a = a') →
  ∃ examples',
    train ATTRS SD self examples = Ok examples' ∧
    length examples' = length examples ∧
    ∀ (idx : nat) example, examples !! idx = Some example →
      ∃ example',
        examples' !! idx = Some example' ∧
        data example' = data example ∧
        (∀ key, (∀ a, a ∈ ATTRS → SD !! a ≠ Some key) →
           representations example' !! key = representations example !! key) ∧
        (∀ attribute key, attribute ∈ ATTRS → SD !! attribute = Some key →
           ∃ rep,
             docs_for_attribute self examples attribute !! idx = Some rep ∧
             representations example' !! key
             = (if (0 <? len rep)%nat then Some rep
                else representations example !! key) ∧
             (msg_get example attribute = None ∨
              msg_get example attribute = Some "" →
              rep = DocItem empty_Doc ∧ len rep = 0 ∧
              representations example' !! key
              = representations example !! key)).
Proof.
  intros Hkeys Hinj. unfold train.
  set (attribute_docs := _docs_for_training_examples ATTRS self examples).
  rewrite train_attributes_attach.
  2:{ intros a Ha. split; [by apply Hkeys|].
      exists (docs_for_attribute self examples a). split.
      - by apply docs_for_training_examples_lookup.
      - by rewrite docs_for_attribute_length. }
  eexists. split; [done|]. split; [by rewrite length_imap|].
  intros idx example Hidx. eexists.
  rewrite list_lookup_imap, Hidx. simpl. split; [done|].
  split; [apply attach_all_data|].
  split; [intros key Hother; by apply attach_all_other_key|].
  intros attribute key Hin Hkey.
  assert (is_Some (docs_for_attribute self examples attribute !! idx))
    as [rep Hrep].
  { apply lookup_lt_is_Some_2. rewrite docs_for_attribute_length.
    by eapply lookup_lt_Some. }
  assert (representations
            (foldl (λ e a, attach SD attribute_docs a idx e) example ATTRS)
            !! key
          = if (0 <? len rep)%nat then Some rep
            else representations example !! key) as Hfinal.
  { apply (attach_all_key _ _ _ _ attribute
             (docs_for_attribute self examples attribute)); try done.
    - intros a Ha Hk. by apply (Hinj a attribute key).
    - by apply docs_for_training_examples_lookup. }
  exists rep. split; [done|]. split; [done|].
  intros Htext.
  rewrite (docs_for_attribute_empty _ _ _ _ _ Hidx Htext) in Hrep.
  injection Hrep as <-. split; [done|]. split; [done|].
  by rewrite Hfinal.
Qed.

End Training.

(** *** Loading and validating the model *)

Lemma lookup_name_InvalidModelError :
  lookup_name (module_exceptions typing_TYPE_CHECKING) "InvalidModelError"
  = Raise (Exn NameError "name 'InvalidModelError' is not defined").
Proof. reflexivity. Qed.

Lemma lookup_name_Exception :
  lookup_name (module_exceptions typing_TYPE_CHECKING) "Exception"
  = Ok Exception.
Proof. reflexivity. Qed.

(** When the loader returns a model, [_load_model] returns it. *)
Lemma load_model_found (spacy_load : string → result Language)
    (spacy_model_name : string) (model : Language) :
  spacy_load spacy_model_name = Ok model →
  _load_model spacy_load spacy_model_name = Ok model.
Proof. unfold _load_model, _load_model_in. by intros ->. Qed.

(** C4.  When the loader raises [OSError] for a model name, [_load_model]
    evaluates [InvalidModelError], a name that the module binds only under
    [typing.TYPE_CHECKING]: the call ends with [NameError] and the message
    of that error, not with the model error and its remediation message.
    With the name bound, the same body raises [InvalidModelError] with the
    download and link instructions. *)
Theorem load_model_missing_raises_NameError
    (spacy_load : string → result Language) (spacy_model_name : string)
    (e : exn) :
  spacy_load spacy_model_name = Raise e → exn_class e = OSError →
  _load_model spacy_load spacy_model_name
  = Raise (Exn NameError "name 'InvalidModelError' is not defined") ∧
  _load_model_in (module_exceptions true) spacy_load spacy_model_name
  = Raise (Exn InvalidModelError (not_linked_message spacy_model_name)).
Proof.
  intros Hload Hclass. unfold _load_model, _load_model_in.
  rewrite Hload, !decide_True by done. split; reflexivity.
Qed.

(** C5, as the code has it.  [_ensure_proper_language_model] raises the
    builtin [Exception] exactly when the model is [None] or its path is
    [None]; it returns [None] exactly when there is a model with a path; it
    never raises [InvalidModelError]. *)
Theorem ensure_proper_language_model_raises_Exception
    (model : option Language) :
  (raises Exception (_ensure_proper_language_model model) ↔
     model = None ∨ ∃ m, model = Some m ∧ path m = None) ∧
  (_ensure_proper_language_model model = Ok () ↔
     ∃ m p, model = Some m ∧ path m = Some p) ∧
  ¬ raises InvalidModelError (_ensure_proper_language_model model).
Proof.
  unfold _ensure_proper_language_model.
  destruct model as [m|]; [destruct (path m) as [p|] eqn:Hpath|]; simpl.
  - split_and!.
    + split; [tauto|]. intros [Hm|[m' [Hm Hp]]]; [done|].
      injection Hm as <-. congruence.
    + split; [|done]. intros _. by exists m, p.
    + tauto.
  - split_and!.
    + split; [|done]. intros _. right. by exists m.
    + split; [done|]. intros [m' [p [Hm Hp]]]. injection Hm as <-. congruence.
    + done.
  - split_and!.
    + split; [|done]. intros _. by left.
    + split; [done|]. by intros [m' [p [Hm _]]].
    + done.
Qed.

(** *** Inference *)

Section Inference.

Context (ATTRS : list string) (SD : gmap string string).

Implicit Types (message : @Message Token) (calls : list string).

Lemma process_attribute_textless self (st : Message * list string) attribute :
  msg_get st.1 attribute = None ∨ msg_get st.1 attribute = Some "" →
  process_attribute SD self st attribute = Ok st.
Proof.
  destruct st as [message calls]. unfold process_attribute. simpl.
  by intros [-> | ->].
Qed.

Lemma process_attributes_textless self (attrs : list string)
    (st : Message * list string) :
  (∀ a, a ∈ attrs →
     msg_get st.1 a = None ∨ msg_get st.1 a = Some "") →
  process_attributes SD self attrs st = Ok st.
Proof.
  induction attrs as [|a attrs IH]; intros Hall; [done|]. simpl.
  rewrite process_attribute_textless by (apply Hall; by left).
  simpl. apply IH. intros a' Ha'. apply Hall. by right.
Qed.

Lemma process_attributes_spec self (attrs : list string) message calls :
  (∀ a text, a ∈ attrs → msg_get message a = Some text → text ≠ "" →
     is_Some (SD !! a)) →
  ∃ message' calls',
    process_attributes SD self attrs (message, calls) = Ok (message', calls') ∧
    data message' = data message ∧
    calls' = calls ++ omap (text_sent self message) attrs ∧
    ∀ key,
      (∀ a text, a ∈ attrs → msg_get message a = Some text → text ≠ "" →
         SD !! a ≠ Some key) →
      representations message' !! key = representations message !! key.
Proof.
  revert message calls.
  induction attrs as [|a attrs IH]; intros message calls Hkeys.
  { exists message, calls. simpl. by rewrite app_nil_r. }
  cbn [process_attributes omap list_omap].
  unfold process_attribute at 1, text_sent at 1.
  destruct (msg_get message a) as [text|] eqn:Hget.
  2:{ simpl. destruct (IH message calls) as (m' & c' & -> & ? & ? & Hother).
      { intros a' text Ha'. apply Hkeys. by right. }
      exists m', c'. split_and!; [done..|].
      intros key Hkey. apply Hother. intros a' text Ha'. apply Hkey. by right. }
  destruct (String.eqb text "") eqn:Hempty.
  { simpl. destruct (IH message calls) as (m' & c' & -> & ? & ? & Hother).
    { intros a' text' Ha'. apply Hkeys. by right. }
    exists m', c'. split_and!; [done..|].
    intros key Hkey. apply Hother. intros a' text' Ha'. apply Hkey. by right. }
  apply String.eqb_neq in Hempty.
  destruct (Hkeys a text) as [k Hk]; [by left|done..|].
  unfold spacy_docs_key. rewrite Hk. simpl.
  set (sent := _preprocess_text self (Some text)).
  set (message1 := msg_set message k (DocItem (_doc_for_text self text))).
  destruct (IH message1 (calls ++ [sent]))
    as (m' & c' & -> & Hdata & Hc & Hother).
  { intros a' text' Ha'. apply Hkeys. by right. }
  exists m', c'. split_and!; [done|done| |].
  - by rewrite Hc, <- app_assoc.
  - intros key Hkey. rewrite Hother.
    + simpl. apply lookup_insert_ne. intros <-.
      by apply (Hkey a text); [left|..].
    + intros a' text' Ha'. apply Hkey. by right.
Qed.

(** C10.  [process] sends to the model the texts of the attributes whose text
    is present and non-empty, and no other; it leaves the text attributes as
    they are, and the entry under every key that is not the key of an
    attribute with such a text; for an attribute whose text is absent or
    empty the round of the loop changes nothing (message and calls made are
    as before); when no attribute has such a text, the message after the
    call is the message before and no call was made. *)
Theorem process_leaves_textless_attributes self message :
  (∀ a text, a ∈ ATTRS → msg_get message a = Some text → text ≠ "" →
     is_Some (SD !! a)) →
  ∃ message' calls,
    process ATTRS SD self message = Ok (message', calls) ∧
    data message' = data message ∧
    calls = omap (text_sent self message) ATTRS ∧
    (∀ key,
       (∀ a text, a ∈ ATTRS → msg_get message a = Some text → text ≠ "" →
          SD !! a ≠ Some key) →
       representations message' !! key = representations message !! key) ∧
    ((∀ a, a ∈ ATTRS →
        msg_get message a = None ∨ msg_get message a = Some "") →
     message' = message ∧ calls = []) ∧
    (∀ a (st : Message * list string),
       msg_get st.1 a = None ∨ msg_get st.1 a = Some "" →
       process_attribute SD self st a = Ok st).
Proof.
  intros Hkeys. unfold process.
  destruct (process_attributes_spec self ATTRS message [] Hkeys)
    as (message' & calls & Hrun & Hdata & Hcalls & Hother).
  exists message', calls. split_and!; [done..| |].
  - intros Hall. rewrite process_attributes_textless in Hrun by done.
    by injection Hrun as <- <-.
  - intros a st. apply process_attribute_textless.
Qed.

End Inference.

End Components.

(** *** Model name and cache key *)

Section Naming.

Implicit Types (config : gmap string pyval) (name language : string).

(** C7, as the code has it.  The resolution in [create] returns the
    explicit name when it is a non-empty string and leaves the
    configuration as it is; when the name is not configured, [None] or
    empty, it returns the fallback language and writes it into the
    configuration under [model].  Either way the configuration holds the
    returned name under [model] afterwards. *)
Theorem resolve_model_name_explicit_or_language config language :
  (∀ explicit, config !! "model" = Some (PyStr explicit) → explicit ≠ "" →
     resolve_model_name config language = (PyStr explicit, config)) ∧
  (config !! "model" = None ∨ config !! "model" = Some PyNone ∨
   config !! "model" = Some (PyStr "") →
     resolve_model_name config language
     = (PyStr language, <["model" := PyStr language]> config)) ∧
  (resolve_model_name config language).2 !! "model"
  = Some (resolve_model_name config language).1.
Proof.
  unfold resolve_model_name, dict_get. split_and!.
  - intros explicit -> Hne. simpl.
    by apply String.eqb_neq in Hne as ->.
  - by intros [-> | [-> | ->]].
  - destruct (config !! "model") as [v|] eqn:Hv; simpl.
    + destruct (truthy v) eqn:Ht; simpl; [|apply lookup_insert_eq].
      done.
    + apply lookup_insert_eq.
Qed.

(** [cache_key] with a configured string, and without the [model] key. *)
Lemma cache_key_configured name config language (model : string) :
  config !! "model" = Some (PyStr model) →
  cache_key name config language = Ok (PyStr ((name +:+ "-") +:+ model)).
Proof. intros Hm. unfold cache_key, dict_get_default. by rewrite Hm. Qed.

Lemma cache_key_not_configured name config language :
  config !! "model" = None →
  cache_key name config language
  = Ok (PyStr ((name +:+ "-") +:+ language)).
Proof. intros Hm. unfold cache_key, dict_get_default. by rewrite Hm. Qed.

Lemma cache_key_model_None name config language :
  config !! "model" = Some PyNone →
  raises TypeError (cache_key name config language).
Proof.
  intros Hm. unfold cache_key, dict_get_default. by rewrite Hm.
Qed.

(** C6 at the failing input.  For the component metadata that holds [None]
    under [model] (as the [defaults] of the class do), [cache_key] ends
    with [TypeError]: the fallback of [dict.get] applies to a missing key
    only.  [create] resolves the same configuration to the language, and
    [cache_key] gives [adapter-en] when the key is missing. *)
Theorem cache_key_model_None_raises_TypeError :
  cache_key "adapter" {[ "model" := PyNone ]} "en"
  = Raise (Exn TypeError "can only concatenate str to str") ∧
  cache_key "adapter" defaults "en"
  = Raise (Exn TypeError "can only concatenate str to str") ∧
  (resolve_model_name {[ "model" := PyNone ]} "en").1 = PyStr "en" ∧
  cache_key "adapter" ∅ "en" = Ok (PyStr "adapter-en").
Proof. split_and!; reflexivity. Qed.

(** C7 as stated fails: resolving the name for the default configuration
    and the language [en] changes the configuration. *)
Lemma resolve_model_name_changes_config :
  (resolve_model_name defaults "en").1 = PyStr "en" ∧
  (resolve_model_name defaults "en").2 ≠ defaults.
Proof.
  split; [reflexivity|].
  intros Heq. apply (f_equal (λ d : gmap string pyval, d !! "model")) in Heq.
  vm_compute in Heq. discriminate.
Qed.

End Naming.

(** *** The properties at the sample installation *)

(** C5 as stated fails: for the missing model the call raises the builtin
    [Exception], which is not an [InvalidModelError]. *)
Lemma ensure_proper_language_model_not_InvalidModelError :
  let model : option (@Language string) := None in
  ¬ (raises InvalidModelError (_ensure_proper_language_model model) ↔
       model = None ∨ ∃ m, model = Some m ∧ path m = None).
Proof.
  cbv zeta. intros [_ Hraise].
  assert (raises InvalidModelError
            (_ensure_proper_language_model (@None (@Language string))))
    as Hr by (apply Hraise; by left).
  vm_compute in Hr. discriminate.
Qed.

Example preprocess_text_HELLO :
  _preprocess_text sample_component (Some "HELLO") = "hello" ∧
  _preprocess_text
    {| component_config := {[ "case_sensitive" := PyBool true ]};
       nlp := sample_model |} (Some "HELLO") = "HELLO" ∧
  _preprocess_text sample_component None = "".
Proof. split_and!; reflexivity. Qed.

Example load_model_sample :
  _load_model (λ _, Ok sample_model) "en" = Ok sample_model.
Proof. reflexivity. Qed.

Lemma reorder_batch_keeps_input_order_witness :
  sample_batch.*1 = seqZ 0 (Z.of_nat (length sample_batch)) ∧
  (reorder_batch short_component sample_batch).*1 = sample_batch.*1 ∧
  StronglySorted Z.le (reorder_batch short_component sample_batch).*1 ∧
  NoDup (reorder_batch short_component sample_batch).*1 ∧
  length (reorder_batch short_component sample_batch) = length sample_batch.
Proof.
  split; [reflexivity|].
  apply (reorder_batch_keeps_input_order short_component sample_batch).
  reflexivity.
Defined.

Lemma load_model_missing_raises_NameError_witness :
  _load_model missing_loader "nonexistent_model"
  = Raise (Exn NameError "name 'InvalidModelError' is not defined") ∧
  _load_model_in (module_exceptions true) missing_loader "nonexistent_model"
  = Raise (Exn InvalidModelError (not_linked_message "nonexistent_model")).
Proof.
  apply (load_model_missing_raises_NameError missing_loader
           "nonexistent_model"
           (Exn OSError "[E050] Can't find model 'nonexistent_model'."));
    reflexivity.
Defined.

Lemma sample_spacy_docs_defined (a : string) :
  a ∈ sample_attributes → is_Some (sample_spacy_docs !! a).
Proof. intros Ha. sample_attribute_cases Ha; by eexists. Defined.

Lemma sample_spacy_docs_distinct (a a' key : string) :
  a ∈ sample_attributes → a' ∈ sample_attributes →
  sample_spacy_docs !! a = Some key → sample_spacy_docs !! a' = Some key →
  a = a'.
Proof.
  intros Ha Ha' Hk Hk'.
  sample_attribute_cases Ha; sample_attribute_cases Ha';
    vm_compute in Hk, Hk'; congruence.
Defined.

Lemma train_attaches_nonempty_docs_witness :
  ∃ examples',
    train sample_attributes sample_spacy_docs sample_component
      [greeting; reply] = Ok examples' ∧
    length examples' = length [greeting; reply] ∧
    ∀ (idx : nat) example, [greeting; reply] !! idx = Some example →
      ∃ example',
        examples' !! idx = Some example' ∧
        data example' = data example ∧
        (∀ key,
           (∀ a, a ∈ sample_attributes → sample_spacy_docs !! a ≠ Some key) →
           representations example' !! key = representations example !! key) ∧
        (∀ attribute key,
           attribute ∈ sample_attributes →
           sample_spacy_docs !! attribute = Some key →
           ∃ rep,
             docs_for_attribute sample_component [greeting; reply] attribute
               !! idx = Some rep ∧
             representations example' !! key
             = (if (0 <? len rep)%nat then Some rep
                else representations example !! key) ∧
             (msg_get example attribute = None ∨
              msg_get example attribute = Some "" →
              rep = DocItem empty_Doc ∧ len rep = 0 ∧
              representations example' !! key
              = representations example !! key)).
Proof.
  apply (train_attaches_nonempty_docs sample_attributes sample_spacy_docs
           sample_component [greeting; reply]).
  - exact sample_spacy_docs_defined.
  - exact sample_spacy_docs_distinct.
Defined.

Lemma process_leaves_textless_attributes_witness :
  ∃ message' calls,
    process sample_attributes sample_spacy_docs sample_component reply
    = Ok (message', calls) ∧
    data message' = data reply ∧
    calls = omap (text_sent sample_component reply) sample_attributes ∧
    (∀ key,
       (∀ a text, a ∈ sample_attributes → msg_get reply a = Some text →
          text ≠ "" → sample_spacy_docs !! a ≠ Some key) →
       representations message' !! key = representations reply !! key) ∧
    ((∀ a, a ∈ sample_attributes →
        msg_get reply a = None ∨ msg_get reply a = Some "") →
     message' = reply ∧ calls = []) ∧
    (∀ a (st : Message * list string),
       msg_get st.1 a = None ∨ msg_get st.1 a = Some "" →
       process_attribute sample_spacy_docs sample_component st a = Ok st).
Proof.
  apply (process_leaves_textless_attributes sample_attributes
           sample_spacy_docs sample_component reply).
  intros a text Ha _ _. by apply sample_spacy_docs_defined.
Defined.

(** The sample installation, run. *)
Example train_sample :
  fmap (M:=list) (λ example, map_to_list (representations example)) <$>
    train sample_attributes sample_spacy_docs sample_component
      [greeting; reply]
  = Ok [[("text_spacy_doc", DocItem ["hello"])];
        [("response_spacy_doc", DocItem ["hi there"])]].
Proof. vm_compute. reflexivity. Qed.

Example process_sample :
  (λ st : Message * list string,
     (map_to_list (representations st.1), st.2)) <$>
    process sample_attributes sample_spacy_docs sample_component reply
  = Ok ([("response_spacy_doc", DocItem ["hi there"])], ["hi there"]).
Proof. vm_compute. reflexivity. Qed.

(** A batch call that returns one Doc for two texts: the second content
    bearing sample keeps its text in the merged list. *)
Example reorder_batch_short :
  reorder_batch short_component sample_batch
  = [(0, DocItem ["hello"]); (1, DocItem []); (2, Text "world")]%Z.
Proof. vm_compute. reflexivity. Qed.

(** * Further properties *)

(** ** The batch pipeline, entry by entry *)

Section BatchEntries.

Context {Token : Type}.
Abbreviation Doc := (@Doc Token).
Abbreviation SpacyNLP := (@SpacyNLP Token).
Abbreviation item := (@item Token).

Implicit Types (self : SpacyNLP) (samples : list (Z * string)).

Lemma filter_lookup_position {A} (P : A → Prop) `{!∀ x, Decision (P x)}
    (l : list A) (idx : nat) (x : A) :
  l !! idx = Some x → P x →
  filter P l !! length (filter P (take idx l)) = Some x.
Proof.
  intros Hidx HP.
  assert (filter P l = filter P (take idx l) ++ x :: filter P (drop (S idx) l))
    as ->.
  { rewrite <- (take_drop_middle l idx x Hidx) at 1.
    by rewrite filter_app, filter_cons_True. }
  by apply list_lookup_middle.
Qed.

Lemma keys_lookup_unique {V} (pairs : list (Z * V)) (i j : nat) k v w :
  NoDup pairs.*1 → pairs !! i = Some (k, v) → pairs !! j = Some (k, w) →
  i = j.
Proof.
  intros Hnd Hi Hj. apply (NoDup_lookup pairs.*1 i j k Hnd);
    rewrite list_lookup_fmap; [by rewrite Hi|by rewrite Hj].
Qed.

Lemma keys_elem_unique {V} (pairs : list (Z * V)) k v w :
  NoDup pairs.*1 → (k, v) ∈ pairs → (k, w) ∈ pairs → v = w.
Proof.
  intros Hnd [i Hi]%list_elem_of_lookup_1 [j Hj]%list_elem_of_lookup_1.
  assert (i = j) as -> by eauto using keys_lookup_unique. congruence.
Qed.

Lemma filter_keys_NoDup (P : Z * string → Prop) `{!∀ x, Decision (P x)}
    samples :
  NoDup samples.*1 → NoDup (filter P samples).*1.
Proof.
  intros Hnd. apply (sublist_NoDup _ samples.*1); [done|].
  apply fmap_sublist, sublist_filter.
Qed.

Lemma dict_lookup_unique {V} (pairs : list (Z * V)) k v :
  (k, v) ∈ pairs → (∀ w, (k, w) ∈ pairs → w = v) →
  dict pairs !! k = Some v.
Proof.
  intros Hin Hunique. apply foldl_insert_lookup.
  - right. by apply (list_elem_of_fmap_2' _ _ (k, v)).
  - apply Forall_forall. intros [k' w] Hp Hk. simpl in *. subst k'.
    by apply Hunique.
Qed.

Lemma dict_lookup_None {V} (pairs : list (Z * V)) k :
  k ∉ pairs.*1 → dict pairs !! k = None.
Proof. rewrite <- elem_of_dom_dict. apply not_elem_of_dom. Qed.

Lemma elem_of_prod_map_id {A B} (f : A → B) (pairs : list (Z * A)) k w :
  (k, w) ∈ prod_map id f <$> pairs ↔ ∃ v, w = f v ∧ (k, v) ∈ pairs.
Proof.
  rewrite list_elem_of_fmap. split.
  - intros [[k' v] [[= -> ->] Hin]]. by exists v.
  - intros [v [-> Hin]]. by exists (k, v).
Qed.

(** The entry of the merged dictionary for the index of a content-bearing
    sample: the Doc at the position of the sample among the content-bearing
    samples, or the text of the sample when the batch call returned no Doc
    at that position. *)
Lemma merged_dict_content_bearing self samples (idx : nat) k t :
  NoDup samples.*1 → samples !! idx = Some (k, t) → t ≠ "" →
  let samples_to_pipe := filter (λ s : Z * string, s.2 ≠ "") samples in
  let empty_samples := filter (λ s : Z * string, s.2 = "") samples in
  let docs := pipe (nlp self) (samples_to_pipe.*2) in
  let j := length (filter (λ s : Z * string, s.2 ≠ "") (take idx samples)) in
  (dict (prod_map id DocItem <$>
           (_process_content_bearing_samples self samples_to_pipe ++
            _process_non_content_bearing_samples self empty_samples))
   ∪ dict (prod_map id Text <$> samples)) !! k
  = Some (match docs !! j with Some d => DocItem d | None => Text t end).
Proof.
  intros Hnd Hidx Ht. cbv zeta.
  set (samples_to_pipe := filter (λ s : Z * string, s.2 ≠ "") samples).
  set (empty_samples := filter (λ s : Z * string, s.2 = "") samples).
  set (j := length (filter (λ s : Z * string, s.2 ≠ "") (take idx samples))).
  assert (samples_to_pipe !! j = Some (k, t)) as Hj
    by (by apply filter_lookup_position).
  assert (NoDup samples_to_pipe.*1) as Hnd' by (by apply filter_keys_NoDup).
  assert (∀ d, (k, d) ∈ _process_content_bearing_samples self samples_to_pipe
               → pipe (nlp self) samples_to_pipe.*2 !! j = Some d) as Hcontent.
  { intros d [i Hi]%list_elem_of_lookup_1.
    rewrite process_content_bearing_lookup in Hi.
    destruct (samples_to_pipe !! i) as [[k' t']|] eqn:Hs; [|done].
    destruct (pipe (nlp self) samples_to_pipe.*2 !! i) as [d'|] eqn:Hd;
      [|done].
    simpl in Hi. injection Hi as -> ->.
    by rewrite <- (keys_lookup_unique _ _ _ _ _ _ Hnd' Hs Hj). }
  assert (∀ d, (k, d) ∉ _process_non_content_bearing_samples self
                           empty_samples) as Hempty.
  { intros d. rewrite process_non_content_bearing_samples_eq.
    intros [[k' t'] [[= <- _] Hin]]%list_elem_of_fmap.
    apply list_elem_of_filter in Hin as [Ht' Hin]. simpl in Ht'. subst t'.
    apply Ht. eapply (keys_elem_unique samples k); [done| |done].
    by eapply list_elem_of_lookup_2. }
  destruct (pipe (nlp self) samples_to_pipe.*2 !! j) as [d|] eqn:Hd.
  - apply lookup_union_Some_l, dict_lookup_unique.
    + apply elem_of_prod_map_id. exists d. split; [done|].
      apply elem_of_app. left. apply (list_elem_of_lookup_2 _ j).
      by rewrite process_content_bearing_lookup, Hj, Hd.
    + intros w [d' [-> Hin]]%elem_of_prod_map_id.
      apply elem_of_app in Hin as [Hin|Hin]; [|by apply Hempty in Hin].
      apply Hcontent in Hin. congruence.
  - rewrite lookup_union_r.
    + apply dict_lookup_unique.
      * apply elem_of_prod_map_id. exists t. split; [done|].
        by eapply list_elem_of_lookup_2.
      * intros w [t' [-> Hin]]%elem_of_prod_map_id. f_equal.
        eapply (keys_elem_unique samples k); [done..|].
        by eapply list_elem_of_lookup_2.
    + apply dict_lookup_None. rewrite fst_prod_map_id.
      intros [[k' d] [Hk Hin]]%list_elem_of_fmap. simpl in Hk. subst k'.
      apply elem_of_app in Hin as [Hin|Hin]; [|by apply Hempty in Hin].
      apply Hcontent in Hin. congruence.
Qed.

Lemma reorder_batch_content_bearing self samples (idx : nat) (k : Z)
    (t : string) :
  samples.*1 = seqZ 0 (Z.of_nat (length samples)) →
  samples !! idx = Some (k, t) → t ≠ "" →
  reorder_batch self samples !! idx
  = Some (k, match pipe (nlp self)
                     ((filter (λ s : Z * string, s.2 ≠ "") samples).*2)
                   !! length (filter (λ s : Z * string, s.2 ≠ "")
                                (take idx samples)) with
             | Some d => DocItem d
             | None => Text t
             end).
Proof.
  intros Hdense Hidx Ht.
  pose proof (reorder_batch_keys self samples Hdense) as Hkeys.
  assert ((reorder_batch self samples).*1 !! idx = Some k) as Hk.
  { by rewrite Hkeys, list_lookup_fmap, Hidx. }
  rewrite list_lookup_fmap in Hk.
  destruct (reorder_batch self samples !! idx) as [[k' v]|] eqn:Hm;
    [|done].
  simpl in Hk. injection Hk as ->. f_equal. f_equal.
  apply list_elem_of_lookup_2 in Hm. revert Hm.
  unfold reorder_batch, _filter_training_samples_by_content,
    _merge_content_lists, dict_update.
  rewrite elem_of_sorted_items.
  rewrite (merged_dict_content_bearing self samples idx k t);
    [congruence| |done..].
  rewrite Hdense. apply NoDup_seqZ.
Qed.

(** X1.  The merged output of the batch pipeline, entry by entry and for
    any batch call: the entry at the position of a sample carries the index
    of the sample and, for an empty text, the empty Doc; for a non-empty
    text, the Doc that the batch call returned at the position the sample
    has among the non-empty samples, or the text itself when the batch call
    returned no Doc at that position. *)
Theorem reorder_batch_entries self samples (idx : nat) (k : Z) (t : string) :
  samples.*1 = seqZ 0 (Z.of_nat (length samples)) →
  samples !! idx = Some (k, t) →
  let docs :=
    pipe (nlp self) ((filter (λ s : Z * string, s.2 ≠ "") samples).*2) in
  let j := length (filter (λ s : Z * string, s.2 ≠ "") (take idx samples)) in
  reorder_batch self samples !! idx
  = Some (k, if decide (t = "") then DocItem empty_Doc
             else match docs !! j with
                  | Some d => DocItem d
                  | None => Text t
                  end).
Proof.
  intros Hdense Hidx. cbv zeta.
  destruct (decide (t = "")) as [->|Ht].
  - by apply reorder_batch_empty_sample.
  - by apply reorder_batch_content_bearing.
Qed.

End BatchEntries.

(** ** Training, entry by entry *)

Section TrainingEntries.

Context {Token : Type}.
Context (ATTRS : list string) (SD : gmap string string).

Implicit Types (self : @SpacyNLP Token).
Implicit Types (examples : list (@Message Token)) (example : @Message Token).

Lemma lower_eq_empty (s : string) : lower s = "" ↔ s = "".
Proof. by destruct s. Qed.

Lemma get_text_empty_inv self example (attribute : string) :
  _get_text self example attribute = "" →
  msg_get example attribute = None ∨ msg_get example attribute = Some "".
Proof.
  unfold _get_text, _preprocess_text.
  destruct (msg_get example attribute) as [text|]; [|by left].
  destruct (truthy _); [|rewrite lower_eq_empty]; intros ->; by right.
Qed.

(** X2.  The text that the batch pipeline sees for an example is empty
    exactly when the attribute of the example is not set or is the empty
    string, whatever the case sensitivity. *)
Theorem get_text_empty_iff self example (attribute : string) :
  _get_text self example attribute = "" ↔
    msg_get example attribute = None ∨ msg_get example attribute = Some "".
Proof.
  split.
  - apply get_text_empty_inv.
  - unfold _get_text. apply preprocess_text_empty.
Qed.

Lemma filter_snd_imap {A} (P : A → Prop) `{!∀ x, Decision (P x)}
    (g : nat → Z) (xs : list A) :
  (filter (λ s : Z * A, P s.2) (imap (λ i x, (g i, x)) xs)).*2 = filter P xs.
Proof.
  revert g. induction xs as [|x xs IH]; intros g; [done|].
  rewrite imap_cons, !filter_cons. simpl.
  specialize (IH (g ∘ S)).
  destruct (decide (P x)); csimpl; [f_equal|]; exact IH.
Qed.

Lemma filter_nonempty_enumerate (xs : list string) :
  (filter (λ s : Z * string, s.2 ≠ "") (enumerate xs)).*2
  = filter (λ x, x ≠ "") xs.
Proof. exact (filter_snd_imap (λ x, x ≠ "") Z.of_nat xs). Qed.

Lemma take_enumerate {A} (n : nat) (xs : list A) :
  take n (enumerate xs) = enumerate (take n xs).
Proof.
  apply list_eq. intros i. unfold enumerate.
  destruct (decide (i < n)).
  - by rewrite lookup_take_lt, !list_lookup_imap, lookup_take_lt.
  - by rewrite lookup_take_ge, list_lookup_imap, lookup_take_ge by lia.
Qed.

(** The representation computed for the example at [idx], for any batch
    call. *)
Lemma docs_for_attribute_entries self examples (attribute : string)
    (idx : nat) example :
  examples !! idx = Some example →
  let texts := (λ e, _get_text self e attribute) <$> examples in
  let t := _get_text self example attribute in
  let docs := pipe (nlp self) (filter (λ x, x ≠ "") texts) in
  let j := length (filter (λ x, x ≠ "") (take idx texts)) in
  docs_for_attribute self examples attribute !! idx
  = Some (if decide (t = "") then DocItem empty_Doc
          else match docs !! j with
               | Some d => DocItem d
               | None => Text t
               end).
Proof.
  intros Hidx. cbv zeta. unfold docs_for_attribute.
  set (texts := (λ e, _get_text self e attribute) <$> examples).
  assert (enumerate texts !! idx
          = Some (Z.of_nat idx, _get_text self example attribute)) as Hsample.
  { unfold enumerate, texts.
    by rewrite list_lookup_imap, list_lookup_fmap, Hidx. }
  rewrite list_lookup_fmap.
  destruct (decide (_get_text self example attribute = "")) as [Ht|Ht].
  - rewrite Ht in Hsample.
    by rewrite (reorder_batch_empty_sample self _ idx (Z.of_nat idx)
                  (enumerate_dense texts) Hsample).
  - rewrite (reorder_batch_content_bearing self _ idx (Z.of_nat idx) _
               (enumerate_dense texts) Hsample Ht).
    simpl. rewrite filter_nonempty_enumerate, take_enumerate.
    by rewrite <- (length_fmap snd (filter _ (enumerate _))),
      filter_nonempty_enumerate.
Qed.

Lemma docs_for_attribute_aligned self examples (attribute : string) :
  (∀ texts, pipe (nlp self) texts = call (nlp self) <$> texts) →
  docs_for_attribute self examples attribute
  = (λ e, let t := _get_text self e attribute in
          DocItem (if decide (t = "") then empty_Doc
                   else call (nlp self) t)) <$> examples.
Proof.
  intros Hpipe. apply list_eq. intros idx. rewrite list_lookup_fmap.
  destruct (examples !! idx) as [example|] eqn:Hidx; simpl.
  - rewrite (docs_for_attribute_entries _ _ _ _ _ Hidx). f_equal.
    destruct (decide (_get_text self example attribute = "")) as [|Ht];
      [done|].
    rewrite Hpipe, list_lookup_fmap.
    rewrite (filter_lookup_position (λ x, x ≠ "") _ idx
               (_get_text self example attribute)); [done| |done].
    by rewrite list_lookup_fmap, Hidx.
  - apply lookup_ge_None_2. rewrite docs_for_attribute_length.
    by apply lookup_ge_None.
Qed.

(** X3.  When the batch call of the model returns, for every batch, the
    Docs that the model returns for the texts one by one, the list computed
    for an attribute has, at the position of each example, the empty Doc
    when the text of the example is empty and the Doc of its own text
    otherwise. *)
Theorem docs_for_training_examples_aligned self examples (attribute : string) :
  (∀ texts, pipe (nlp self) texts = call (nlp self) <$> texts) →
  attribute ∈ ATTRS →
  _docs_for_training_examples ATTRS self examples !! attribute
  = Some ((λ e, let t := _get_text self e attribute in
                DocItem (if decide (t = "") then empty_Doc
                         else call (nlp self) t)) <$> examples).
Proof.
  intros Hpipe Hin. rewrite docs_for_training_examples_lookup by done.
  f_equal. by apply docs_for_attribute_aligned.
Qed.

Lemma length_pos_nonempty (s : string) : s ≠ "" → 0 < String.length s.
Proof. destruct s; [done|]. simpl. lia. Qed.

(** X4.  When the batch call returns fewer Docs than there are non-empty
    texts, [train] raises nothing and stores, for an example whose non-empty
    text got no Doc, the text itself under the key of the attribute. *)
Theorem train_short_batch_attaches_text self examples (attribute key : string)
    (idx : nat) example :
  (∀ a, a ∈ ATTRS → is_Some (SD !! a)) →
  (∀ a a' k, a ∈ ATTRS → a' ∈ ATTRS →
     SD !! a = Some k → SD !! a' = Some k → a = a') →
  attribute ∈ ATTRS → SD !! attribute = Some key →
  examples !! idx = Some example →
  _get_text self example attribute ≠ "" →
  let texts := (λ e, _get_text self e attribute) <$> examples in
  length (pipe (nlp self) (filter (λ x, x ≠ "") texts))
    ≤ length (filter (λ x, x ≠ "") (take idx texts)) →
  ∃ examples' example',
    train ATTRS SD self examples = Ok examples' ∧
    examples' !! idx = Some example' ∧
    representations example' !! key
    = Some (Text (_get_text self example attribute)).
Proof.
  intros Hkeys Hinj Hin Hkey Hidx Ht texts Hshort. unfold train.
  set (attribute_docs := _docs_for_training_examples ATTRS self examples).
  rewrite train_attributes_attach.
  2:{ intros a Ha. split; [by apply Hkeys|].
      exists (docs_for_attribute self examples a). split.
      - by apply docs_for_training_examples_lookup.
      - by rewrite docs_for_attribute_length. }
  eexists _, _. split; [done|].
  rewrite list_lookup_imap, Hidx. simpl. split; [done|].
  rewrite (attach_all_key SD attribute_docs ATTRS idx example attribute
             (docs_for_attribute self examples attribute) key
             (Text (_get_text self example attribute))); try done.
  - simpl. by rewrite (proj2 (Nat.ltb_lt _ _) (length_pos_nonempty _ Ht)).
  - intros a Ha Hk. by apply (Hinj a attribute key).
  - by apply docs_for_training_examples_lookup.
  - rewrite (docs_for_attribute_entries _ _ _ _ _ Hidx).
    rewrite decide_False by done.
    by rewrite (lookup_ge_None_2 (pipe _ _)) by exact Hshort.
Qed.

End TrainingEntries.

(** ** Training and inference agree *)

Section TrainProcess.

Context {Token : Type}.
Context (ATTRS : list string) (SD : gmap string string).

Implicit Types (self : @SpacyNLP Token).
Implicit Types (examples : list (@Message Token)).
Implicit Types (example message : @Message Token).

(** One round of [process] on a message with the texts of the example at
    [idx] does what one round of [train] does to it. *)
Lemma process_attribute_attach self examples (idx : nat) example message
    (calls : list string) (attribute : string) :
  (∀ texts, pipe (nlp self) texts = call (nlp self) <$> texts) →
  (∀ t, t ≠ "" → 0 < length (call (nlp self) t)) →
  attribute ∈ ATTRS → is_Some (SD !! attribute) →
  examples !! idx = Some example → data message = data example →
  ∃ calls',
    process_attribute SD self (message, calls) attribute
    = Ok (attach SD (_docs_for_training_examples ATTRS self examples)
            attribute idx message, calls').
Proof.
  intros Hpipe Hdocs Hin [key Hkey] Hidx Hdata.
  unfold attach, process_attribute, spacy_docs_key.
  rewrite (docs_for_training_examples_lookup ATTRS self examples attribute
             Hin), (docs_for_attribute_aligned self examples attribute Hpipe),
    Hkey, list_lookup_fmap, Hidx. simpl.
  assert (msg_get message attribute = msg_get example attribute) as Hget
    by (unfold msg_get; by rewrite Hdata).
  rewrite Hget.
  destruct (decide (_get_text self example attribute = "")) as [Ht|Ht].
  - apply get_text_empty_inv in Ht as [-> | ->]; by exists calls.
  - assert ((0 <? length (call (nlp self) (_get_text self example attribute)))
            = true) as -> by (by apply Nat.ltb_lt, Hdocs).
    unfold _get_text in *.
    destruct (msg_get example attribute) as [text|] eqn:Htext.
    + destruct (String.eqb text "") eqn:Hempty.
      * apply String.eqb_eq in Hempty as ->.
        by rewrite preprocess_text_empty in Ht by (by right).
      * by eexists.
    + by rewrite preprocess_text_empty in Ht by (by left).
Qed.

Lemma process_attributes_attach self examples (idx : nat) example
    (attrs : list string) message (calls : list string) :
  (∀ texts, pipe (nlp self) texts = call (nlp self) <$> texts) →
  (∀ t, t ≠ "" → 0 < length (call (nlp self) t)) →
  (∀ a, a ∈ attrs → a ∈ ATTRS ∧ is_Some (SD !! a)) →
  examples !! idx = Some example → data message = data example →
  ∃ calls',
    process_attributes SD self attrs (message, calls)
    = Ok (foldl (λ e a,
                   attach SD (_docs_for_training_examples ATTRS self examples)
                     a idx e)
                message attrs, calls').
Proof.
  intros Hpipe Hdocs Hattrs Hidx. revert message calls.
  induction attrs as [|a attrs IH]; intros message calls Hdata.
  { by exists calls. }
  cbn [process_attributes foldl].
  destruct (Hattrs a) as [Hin Hkey]; [by left|].
  destruct (process_attribute_attach self examples idx example message calls
              a Hpipe Hdocs Hin Hkey Hidx Hdata) as [calls1 ->].
  simpl. apply IH.
  - intros a' Ha'. apply Hattrs. by right.
  - by rewrite attach_data.
Qed.

(** X5.  When the batch call returns the Docs that the model returns for the
    texts one by one, and the model returns a Doc with tokens for every
    non-empty text, [train] leaves each example as [process] leaves it when
    run on that example alone. *)
Theorem train_agrees_with_process self examples :
  (∀ texts, pipe (nlp self) texts = call (nlp self) <$> texts) →
  (∀ t, t ≠ "" → 0 < length (call (nlp self) t)) →
  (∀ a, a ∈ ATTRS → is_Some (SD !! a)) →
  ∃ examples',
    train ATTRS SD self examples = Ok examples' ∧
    length examples' = length examples ∧
    ∀ (idx : nat) example, examples !! idx = Some example →
      ∃ example' calls,
        examples' !! idx = Some example' ∧
        process ATTRS SD self example = Ok (example', calls).
Proof.
  intros Hpipe Hdocs Hkeys. unfold train.
  rewrite train_attributes_attach.
  2:{ intros a Ha. split; [by apply Hkeys|].
      exists (docs_for_attribute self examples a). split.
      - by apply docs_for_training_examples_lookup.
      - by rewrite docs_for_attribute_length. }
  eexists. split; [done|]. split; [by rewrite length_imap|].
  intros idx example Hidx.
  destruct (process_attributes_attach self examples idx example ATTRS
              example [] Hpipe Hdocs) as [calls Hrun]; [|done..|].
  { intros a Ha. split; [done|by apply Hkeys]. }
  eexists _, calls. rewrite list_lookup_imap, Hidx. simpl.
  split; [done|]. exact Hrun.
Qed.

(** ** Inference: what is attached, and the missing key *)

(** X6.  [process] stores, under the key of an attribute whose text is
    present and not empty, the Doc of the model for the preprocessed text,
    provided no other attribute with such a text has the same key. *)
Theorem process_attaches_doc self message (attribute key text : string) :
  (∀ a t, a ∈ ATTRS → msg_get message a = Some t → t ≠ "" →
     is_Some (SD !! a)) →
  (∀ a t, a ∈ ATTRS → msg_get message a = Some t → t ≠ "" →
     SD !! a = Some key → a = attribute) →
  attribute ∈ ATTRS → SD !! attribute = Some key →
  msg_get message attribute = Some text → text ≠ "" →
  ∃ message' calls,
    process ATTRS SD self message = Ok (message', calls) ∧
    representations message' !! key
    = Some (DocItem (call (nlp self) (_preprocess_text self (Some text)))) ∧
    _preprocess_text self (Some text) ∈ calls.
Proof.
  intros Hkeys Hinj Hin Hkey Htext Hne. unfold process.
  generalize (@nil string) as calls. revert message Hkeys Hinj Htext.
  induction ATTRS as [|a attrs IH]; intros message Hkeys Hinj Htext calls.
  { by apply elem_of_nil in Hin. }
  cbn [process_attributes].
  destruct (decide (attribute ∈ attrs)) as [Hrest|Hrest].
  - (* a later round stores the Doc *)
    destruct (process_attributes_spec SD self [a] message calls)
      as (m1 & c1 & Hrun & Hdata & _ & _).
    { intros a' t Ha'. apply Hkeys. apply list_elem_of_singleton in Ha'.
      subst a'. by left. }
    cbn [process_attributes] in Hrun.
    destruct (process_attribute SD self (message, calls) a) as [[m1' c1']|e];
      [|done].
    simpl in Hrun. injection Hrun as -> ->. simpl.
    assert (∀ a', msg_get m1 a' = msg_get message a') as Hget
      by (intros a'; unfold msg_get; by rewrite Hdata).
    apply IH; [done| | |by rewrite Hget].
    + intros a' t Ha'. rewrite Hget. apply Hkeys. by right.
    + intros a' t Ha'. rewrite Hget. apply Hinj. by right.
  - (* this round stores it, the later rounds leave the key alone *)
    apply elem_of_cons in Hin as [<-|Hin]; [|done].
    unfold process_attribute at 1. rewrite Htext.
    apply String.eqb_neq in Hne as Hneb. rewrite Hneb.
    unfold spacy_docs_key. rewrite Hkey. simpl.
    set (sent := _preprocess_text self (Some text)).
    set (m1 := msg_set message key (DocItem (_doc_for_text self text))).
    destruct (process_attributes_spec SD self attrs m1 (calls ++ [sent]))
      as (m' & c' & -> & _ & -> & Hother).
    { intros a' t Ha'. apply Hkeys. by right. }
    exists m', ((calls ++ [sent]) ++ omap (text_sent self m1) attrs).
    split; [done|]. split.
    + rewrite Hother; [apply lookup_insert_eq|].
      intros a' t Ha' Ht Hnet Hk. apply Hrest.
      rewrite <- (Hinj a' t); [done|by right|done..].
    + rewrite !elem_of_app, list_elem_of_singleton. by left; right.
Qed.

(** X7.  [process] raises [KeyError] when an attribute whose text is present
    and not empty has no entry in [SPACY_DOCS]. *)
Theorem process_missing_key_raises_KeyError self message
    (attribute text : string) :
  attribute ∈ ATTRS → msg_get message attribute = Some text → text ≠ "" →
  SD !! attribute = None →
  raises KeyError (process ATTRS SD self message).
Proof.
  intros Hin Htext Hne Hkey. unfold process.
  generalize (@nil string) as calls. revert message Htext.
  induction ATTRS as [|a attrs IH]; intros message Htext calls.
  { by apply elem_of_nil in Hin. }
  cbn [process_attributes].
  destruct (decide (a = attribute)) as [->|Hother].
  - unfold process_attribute. rewrite Htext.
    apply String.eqb_neq in Hne as ->.
    unfold spacy_docs_key. by rewrite Hkey.
  - apply elem_of_cons in Hin as [Heq|Hin]; [congruence|].
    unfold process_attribute at 1.
    destruct (msg_get message a) as [t|]; [|by apply IH].
    destruct (String.eqb t ""); [by apply IH|].
    unfold spacy_docs_key. destruct (SD !! a) as [k|]; [|done].
    simpl. by apply IH.
Qed.

End TrainProcess.

(** ** Merging any two lists *)

Section MergeAny.

Context {Token : Type}.

Implicit Types (samples : list (Z * string)).
Implicit Types (doc_lists : list (Z * @Doc Token)).

Lemma dict_lookup_elem {V} (pairs : list (Z * V)) k v :
  dict pairs !! k = Some v → (k, v) ∈ pairs.
Proof.
  rewrite dict_list_to_map. intros Hk%elem_of_list_to_map_2.
  by apply elem_of_reverse.
Qed.

(** X8.  [_merge_content_lists] on any two lists, dense indices or not: the
    indices of the result are in ascending order without repetition; an
    index is in the result exactly when it is an index of a sample or of a
    Doc; an index that comes with a Doc carries one of its Docs, and any
    other index carries one of the texts of its samples. *)
Theorem merge_content_lists_any samples doc_lists :
  let merged := _merge_content_lists samples doc_lists in
  StronglySorted Z.le merged.*1 ∧ NoDup merged.*1 ∧
  (∀ k, k ∈ merged.*1 ↔ k ∈ samples.*1 ∨ k ∈ doc_lists.*1) ∧
  (∀ k v, (k, v) ∈ merged →
     if decide (k ∈ doc_lists.*1)
     then ∃ d, v = DocItem d ∧ (k, d) ∈ doc_lists
     else ∃ t, v = Text t ∧ (k, t) ∈ samples).
Proof.
  cbv zeta. unfold _merge_content_lists, dict_update. split_and!.
  - apply sorted_items_keys_sorted.
  - apply sorted_items_keys_NoDup.
  - intros k. rewrite elem_of_sorted_items_keys, dom_union_L, elem_of_union,
      !elem_of_dom_dict, !fst_prod_map_id. tauto.
  - intros k v Hin. apply elem_of_sorted_items in Hin.
    apply lookup_union_Some_raw in Hin as [Hdoc|[Hnone Htext]].
    + apply dict_lookup_elem, elem_of_prod_map_id in Hdoc as [d [-> Hd]].
      rewrite decide_True; [by exists d|].
      by apply (list_elem_of_fmap_2' _ _ (k, d)).
    + apply not_elem_of_dom in Hnone.
      rewrite elem_of_dom_dict, fst_prod_map_id in Hnone.
      rewrite decide_False by done.
      apply dict_lookup_elem, elem_of_prod_map_id in Htext as [t [-> Ht]].
      by exists t.
Qed.

End MergeAny.

(** ** Training twice *)

Section TrainTwice.

Context {Token : Type}.
Context (ATTRS : list string) (SD : gmap string string).

Implicit Types (self : @SpacyNLP Token).
Implicit Types (examples : list (@Message Token)) (example : @Message Token).
Implicit Types (attribute_docs : gmap string (list (@item Token))).

(** X9.  For any batch call, the dictionary of [_docs_for_training_examples]
    has an entry exactly for the attributes of the list, and each entry has
    one representation per training example. *)
Theorem docs_for_training_examples_shape self examples (attribute : string) :
  (is_Some (_docs_for_training_examples ATTRS self examples !! attribute) ↔
     attribute ∈ ATTRS) ∧
  (∀ docs,
     _docs_for_training_examples ATTRS self examples !! attribute = Some docs →
     length docs = length examples).
Proof.
  assert (attribute ∉ ATTRS →
          _docs_for_training_examples ATTRS self examples !! attribute = None)
    as Hnone.
  { unfold _docs_for_training_examples.
    assert ((∅ : gmap string (list (@item Token))) !! attribute = None)
      as Hd by done.
    revert Hd. generalize (∅ : gmap string (list (@item Token))).
    induction ATTRS as [|a attrs IH]; intros d Hd Hnot; [done|].
    simpl. apply not_elem_of_cons in Hnot as [Hne Hnot].
    apply IH; [|done]. by rewrite lookup_insert_ne. }
  destruct (decide (attribute ∈ ATTRS)) as [Hin|Hnot].
  - rewrite docs_for_training_examples_lookup by done. split.
    + split; [done|]. by eexists.
    + intros docs [= <-]. apply docs_for_attribute_length.
  - rewrite Hnone by done. split.
    + split; [by intros [? ?]|done].
    + done.
Qed.

Lemma attach_union attribute_docs (attribute : string) (idx : nat) :
  ∃ written : gmap string (@item Token),
    ∀ example,
      representations (attach SD attribute_docs attribute idx example)
      = written ∪ representations example.
Proof.
  unfold attach.
  destruct (attribute_docs !! attribute) as [docs|];
    [|exists ∅; intros; by rewrite (left_id_L ∅ (∪))].
  destruct (SD !! attribute) as [key|];
    [|exists ∅; intros; by rewrite (left_id_L ∅ (∪))].
  destruct (docs !! idx) as [rep|];
    [|exists ∅; intros; by rewrite (left_id_L ∅ (∪))].
  destruct (0 <? len rep);
    [|exists ∅; intros; by rewrite (left_id_L ∅ (∪))].
  exists {[ key := rep ]}. intros example. simpl.
  by rewrite insert_union_singleton_l.
Qed.

(** The representations after the rounds of [train] for one example: the
    entries the rounds write, over the entries that were there. *)
Lemma attach_all_over attribute_docs (attrs : list string) (idx : nat)
    example blank (below : gmap string (@item Token)) :
  representations example = representations blank ∪ below →
  representations
    (foldl (λ e a, attach SD attribute_docs a idx e) example attrs)
  = representations
      (foldl (λ e a, attach SD attribute_docs a idx e) blank attrs)
    ∪ below.
Proof.
  revert example blank.
  induction attrs as [|a attrs IH]; intros example blank Hrep; [done|].
  simpl. apply IH.
  destruct (attach_union attribute_docs a idx) as [written Hw].
  by rewrite !Hw, Hrep, (assoc_L (∪)).
Qed.

Lemma docs_for_attribute_same_data self examples examples'
    (attribute : string) :
  data <$> examples' = data <$> examples →
  docs_for_attribute self examples' attribute
  = docs_for_attribute self examples attribute.
Proof.
  intros Hdata. unfold docs_for_attribute. do 3 f_equal.
  change (λ e, _get_text self e attribute)
    with ((λ d, _preprocess_text self (d !! attribute)) ∘ @data Token).
  by rewrite !(list_fmap_compose data), Hdata.
Qed.

Lemma docs_for_training_examples_same_data self examples examples' :
  data <$> examples' = data <$> examples →
  _docs_for_training_examples ATTRS self examples'
  = _docs_for_training_examples ATTRS self examples.
Proof.
  intros Hdata. unfold _docs_for_training_examples.
  generalize (∅ : gmap string (list (@item Token))).
  induction ATTRS as [|a attrs IH]; intros d; [done|]. simpl.
  by rewrite (docs_for_attribute_same_data _ examples), IH.
Qed.

(** X10.  [train] run a second time, on the examples it returned, returns
    them as they are. *)
Theorem train_twice self examples examples' :
  train ATTRS SD self examples = Ok examples' →
  (∀ a, a ∈ ATTRS → is_Some (SD !! a)) →
  train ATTRS SD self examples' = Ok examples'.
Proof.
  intros Hrun Hkeys.
  assert (∀ ex : list (@Message Token), ∀ a, a ∈ ATTRS →
            is_Some (SD !! a) ∧
            ∃ docs, _docs_for_training_examples ATTRS self ex !! a = Some docs
                    ∧ length ex ≤ length docs) as Hattrs.
  { intros ex a Ha. split; [by apply Hkeys|].
    exists (docs_for_attribute self ex a). split.
    - by apply docs_for_training_examples_lookup.
    - by rewrite docs_for_attribute_length. }
  unfold train in *.
  rewrite train_attributes_attach in Hrun by apply Hattrs.
  injection Hrun as <-.
  set (attribute_docs := _docs_for_training_examples ATTRS self examples).
  set (once := imap (λ i e, foldl (λ e a, attach SD attribute_docs a i e)
                               e ATTRS) examples).
  assert (_docs_for_training_examples ATTRS self once = attribute_docs)
    as Hsame.
  { apply docs_for_training_examples_same_data.
    apply list_eq. intros i. unfold once.
    rewrite !list_lookup_fmap, list_lookup_imap.
    destruct (examples !! i) as [e|]; [|done]. simpl. f_equal.
    apply attach_all_data. }
  rewrite train_attributes_attach by apply Hattrs. rewrite Hsame.
  f_equal. unfold once. rewrite imap_imap.
  apply list_eq. intros i. rewrite !list_lookup_imap.
  destruct (examples !! i) as [e|]; [|done]. simpl. f_equal.
  set (rounds := λ e, foldl (λ e a, attach SD attribute_docs a i e) e ATTRS).
  change (rounds (rounds e) = rounds e).
  set (blank := {| data := data e;
                   representations := (∅ : gmap string (@item Token)) |}).
  assert (∀ e', representations (rounds e')
                = representations (rounds blank) ∪ representations e')
    as Hover.
  { intros e'. apply attach_all_over. simpl. by rewrite (left_id_L ∅ (∪)). }
  assert (data (rounds (rounds e)) = data (rounds e)) as Hdata
    by apply attach_all_data.
  assert (representations (rounds (rounds e)) = representations (rounds e))
    as Hrep.
  { rewrite (Hover (rounds e)), (Hover e), (assoc_L (∪)).
    by rewrite (idemp (∪) (representations (rounds blank))). }
  destruct (rounds (rounds e)), (rounds e). simpl in *. by subst.
Qed.

End TrainTwice.

(** ** Creating and loading *)

Section LifecycleProperties.

Context {Token : Type}.
Context (override_defaults :
           gmap string pyval → gmap string pyval → gmap string pyval).
Context (component_init : gmap string pyval → gmap string pyval).
Context (spacy_load : pyval → result (@Language Token)).

Implicit Types (config meta : gmap string pyval) (language : string).
Implicit Types (component : @SpacyNLP Token) (model : @Language Token).

Lemma bind_Ok {A B} (r : result A) (k : A → result B) (b : B) :
  r ≫= k = Ok b → ∃ a, r = Ok a ∧ k a = Ok b.
Proof. destruct r as [a|e]; [by exists a|done]. Qed.

Lemma resolve_model_name_recorded config language :
  (resolve_model_name config language).2 !! "model"
  = Some (resolve_model_name config language).1.
Proof.
  unfold resolve_model_name, dict_get.
  destruct (config !! "model") as [v|] eqn:Hv; simpl;
    [|apply lookup_insert_eq].
  destruct (truthy v); simpl; [done|apply lookup_insert_eq].
Qed.

(** What a loaded and validated model is. *)
Lemma load_and_ensure_Ok (v : pyval) model :
  load_model_value spacy_load v = Ok model →
  _ensure_proper_language_model (Some model) = Ok () →
  spacy_load v = Ok model ∧ is_Some (path model).
Proof.
  unfold load_model_value, _load_model, _load_model_in,
    _ensure_proper_language_model.
  destruct (spacy_load v) as [m|e]; [intros [= ->]|].
  - destruct (path model); [by eauto|].
    intros Hraise. vm_compute in Hraise. discriminate.
  - destruct (decide (exn_class e = OSError)); [|done].
    intros Hraise. vm_compute in Hraise. discriminate.
Qed.

(** X11.  A component that [create] returns holds a model that the loader
    returned for the resolved name and that has a path; the configuration
    it was built from names that model under [model]. *)
Theorem create_returns_validated config language component :
  create override_defaults component_init spacy_load config language
  = Ok component →
  let resolved :=
    resolve_model_name (override_defaults defaults config) language in
  spacy_load resolved.1 = Ok (nlp component) ∧
  is_Some (path (nlp component)) ∧
  resolved.2 !! "model" = Some resolved.1 ∧
  component_config component = component_init resolved.2.
Proof.
  unfold create. cbv zeta.
  pose proof (resolve_model_name_recorded
                (override_defaults defaults config) language) as Hrec.
  destruct (resolve_model_name (override_defaults defaults config) language)
    as [name config'].
  intros (model & Hload & Hrest)%bind_Ok.
  apply bind_Ok in Hrest as ([] & Hens & [= <-]).
  destruct (load_and_ensure_Ok name model Hload Hens) as [Hl Hp].
  by split_and!.
Qed.

(** X12.  [load] returns the cached component when there is one, whatever
    the metadata and the loader.  Without one, it returns a component
    exactly when the loader returns, for the [model] entry of the metadata,
    a model that has a path; the component then holds this model and is
    built from the metadata. *)
Theorem load_returns_cached_or_validated meta :
  (∀ cached, load component_init spacy_load meta (Some cached) = Ok cached) ∧
  (∀ component,
     load component_init spacy_load meta None = Ok component ↔
     ∃ model,
       spacy_load (dict_get meta "model") = Ok model ∧
       is_Some (path model) ∧
       component = new_component component_init meta model).
Proof.
  split; [done|]. intros component. unfold load. cbv zeta. split.
  - intros (model & Hload & Hrest)%bind_Ok.
    apply bind_Ok in Hrest as ([] & Hens & [= <-]).
    destruct (load_and_ensure_Ok _ model Hload Hens) as [Hl Hp].
    by exists model.
  - intros (model & Hload & [p Hp] & ->).
    unfold load_model_value, _load_model, _load_model_in.
    rewrite Hload. cbn [mbind result_bind].
    unfold _ensure_proper_language_model. by rewrite Hp.
Qed.

(** X13.  When the parent constructor keeps a [model] entry that the
    configuration has, the configuration of a component that [create] returned
    is metadata from which [load], without cached component, returns a
    component with the same model. *)
Theorem create_then_load config language component :
  (∀ c v, c !! "model" = Some v → component_init c !! "model" = Some v) →
  create override_defaults component_init spacy_load config language
  = Ok component →
  load component_init spacy_load (component_config component) None
  = Ok (new_component component_init (component_config component)
          (nlp component)).
Proof.
  intros Hinit Hcreate. unfold create in Hcreate.
  pose proof (resolve_model_name_recorded
                (override_defaults defaults config) language) as Hrec.
  destruct (resolve_model_name (override_defaults defaults config) language)
    as [name config'].
  simpl in Hrec.
  apply bind_Ok in Hcreate as (model & Hload & Hrest).
  apply bind_Ok in Hrest as ([] & Hens & [= <-]).
  unfold load, new_component, dict_get. cbn [component_config nlp].
  rewrite (Hinit _ _ Hrec). cbn [default from_option id]. rewrite Hload.
  cbn [mbind result_bind]. by rewrite Hens.
Qed.

(** X14.  When the loader raises for the resolved name, [create] returns no
    component: an exception that is not an [OSError] passes through as it
    is, and an [OSError] ends in the [NameError] of the unbound exception
    class.  [load] does the same for the [model] entry of the metadata. *)
Theorem create_and_load_propagate config meta language (e : exn) :
  (spacy_load
     (resolve_model_name (override_defaults defaults config) language).1
   = Raise e →
   create override_defaults component_init spacy_load config language
   = Raise (if decide (exn_class e = OSError)
            then Exn NameError "name 'InvalidModelError' is not defined"
            else e)) ∧
  (spacy_load (dict_get meta "model") = Raise e →
   load component_init spacy_load meta None
   = Raise (if decide (exn_class e = OSError)
            then Exn NameError "name 'InvalidModelError' is not defined"
            else e)).
Proof.
  split.
  - unfold create.
    destruct (resolve_model_name (override_defaults defaults config) language)
      as [name config'].
    simpl. intros Hload.
    unfold load_model_value, _load_model, _load_model_in. rewrite Hload.
    by destruct (decide (exn_class e = OSError)).
  - intros Hload. unfold load, load_model_value, _load_model, _load_model_in.
    rewrite Hload. by destruct (decide (exn_class e = OSError)).
Qed.

End LifecycleProperties.

(** ** The cache key *)

Section CacheKey.

Implicit Types (config : gmap string pyval) (name language : string).

(** X15.  After the resolution of [create], the cache key of the
    configuration is defined and names the resolved model, whatever the
    language of the metadata: the [TypeError] of a [None] entry cannot
    occur.  The only configurations left out hold [True] under [model]. *)
Theorem cache_key_after_resolve name config language :
  config !! "model" ≠ Some (PyBool true) →
  ∃ model,
    (resolve_model_name config language).1 = PyStr model ∧
    ∀ language',
      cache_key name (resolve_model_name config language).2 language'
      = Ok (PyStr ((name +:+ "-") +:+ model)).
Proof.
  intros Hbool.
  pose proof (resolve_model_name_recorded config language) as Hrec.
  assert (∃ model, (resolve_model_name config language).1 = PyStr model)
    as [model Hmodel].
  { unfold resolve_model_name, dict_get.
    destruct (config !! "model") as [[|[|]|s]|]; simpl; try done;
      try (by eauto).
    destruct (String.eqb s ""); simpl; by eauto. }
  exists model. split; [done|]. intros language'.
  apply cache_key_configured. by rewrite Hrec, Hmodel.
Qed.

(** The cache key determines the value of [get("model", language)] it was
    built from. *)
Lemma cache_key_same_value name config1 config2 language1 language2
    (key : pyval) :
  cache_key name config1 language1 = Ok key →
  cache_key name config2 language2 = Ok key →
  dict_get_default config1 "model" (PyStr language1)
  = dict_get_default config2 "model" (PyStr language2).
Proof.
  unfold cache_key. simpl.
  destruct (dict_get_default config1 "model" (PyStr language1))
    as [|b1|m1]; [done..|].
  destruct (dict_get_default config2 "model" (PyStr language2))
    as [|b2|m2]; [by intros _ ?|by intros _ ?|].
  simpl. intros [= <-] [= Heq]. f_equal.
  symmetry. by apply (inj (String.app (name +:+ "-"))).
Qed.

Lemma resolve_model_name_str config language :
  config !! "model" ≠ Some (PyBool true) →
  ∃ model, (resolve_model_name config language).1 = PyStr model.
Proof.
  intros Hbool. unfold resolve_model_name, dict_get.
  destruct (config !! "model") as [[|[|]|s]|]; simpl; try done;
    try (by eauto).
  destruct (String.eqb s ""); simpl; by eauto.
Qed.

(** X16.  After the resolution of [create], two configurations with the
    same cache key, for the same component name, have the same resolved
    model, whatever the languages of the metadata: configurations that
    [create] resolves to different models never share a cache key.  (On a
    configuration as given, the key only determines the value of
    [get("model", language)]: an empty [model] entry gives the key that
    ends with the hyphen for every language.) *)
Theorem cache_key_same_model name config1 config2 language1 language2
    language1' language2' :
  config1 !! "model" ≠ Some (PyBool true) →
  config2 !! "model" ≠ Some (PyBool true) →
  cache_key name (resolve_model_name config1 language1).2 language1'
  = cache_key name (resolve_model_name config2 language2).2 language2' →
  (resolve_model_name config1 language1).1
  = (resolve_model_name config2 language2).1.
Proof.
  intros Hbool1 Hbool2.
  destruct (resolve_model_name_str config1 language1 Hbool1) as [m1 Hm1].
  destruct (resolve_model_name_str config2 language2 Hbool2) as [m2 Hm2].
  pose proof (resolve_model_name_recorded config1 language1) as Hrec1.
  pose proof (resolve_model_name_recorded config2 language2) as Hrec2.
  rewrite Hm1 in Hrec1 |- *. rewrite Hm2 in Hrec2 |- *.
  rewrite (cache_key_configured name _ language1' m1 Hrec1),
    (cache_key_configured name _ language2' m2 Hrec2).
  intros [= Heq]. f_equal.
  by apply (inj (String.app (name +:+ "-"))).
Qed.

End CacheKey.

(** ** The further properties at the sample installation *)

Lemma sample_pipe_is_call (texts : list string) :
  pipe (nlp sample_component) texts = call (nlp sample_component) <$> texts.
Proof. reflexivity. Defined.

Lemma sample_call_nonempty (t : string) :
  t ≠ "" → 0 < length (call (nlp sample_component) t).
Proof. intros _. simpl. lia. Defined.

Lemma reorder_batch_entries_witness :
  reorder_batch short_component sample_batch !! 2
  = Some (2%Z,
          if decide ("world" = "") then DocItem empty_Doc
          else match pipe (nlp short_component)
                       ((filter (λ s : Z * string, s.2 ≠ "") sample_batch).*2)
                     !! length (filter (λ s : Z * string, s.2 ≠ "")
                                  (take 2 sample_batch)) with
               | Some d => DocItem d
               | None => Text "world"
               end).
Proof.
  apply (reorder_batch_entries short_component sample_batch 2 2%Z "world");
    reflexivity.
Defined.

Lemma docs_for_training_examples_aligned_witness :
  _docs_for_training_examples sample_attributes sample_component
    [greeting; reply] !! "response"
  = Some ((λ e, let t := _get_text sample_component e "response" in
                DocItem (if decide (t = "") then empty_Doc
                         else call (nlp sample_component) t))
          <$> [greeting; reply]).
Proof.
  apply (docs_for_training_examples_aligned sample_attributes
           sample_component [greeting; reply] "response").
  - exact sample_pipe_is_call.
  - sample_attribute_member.
Defined.

Lemma train_short_batch_attaches_text_witness :
  ∃ examples' example',
    train sample_attributes sample_spacy_docs short_component
      [greeting; farewell] = Ok examples' ∧
    examples' !! 1 = Some example' ∧
    representations example' !! "text_spacy_doc"
    = Some (Text (_get_text short_component farewell "text")).
Proof.
  apply (train_short_batch_attaches_text sample_attributes sample_spacy_docs
           short_component [greeting; farewell] "text" "text_spacy_doc"
           1 farewell).
  - exact sample_spacy_docs_defined.
  - exact sample_spacy_docs_distinct.
  - sample_attribute_member.
  - reflexivity.
  - reflexivity.
  - vm_compute. discriminate.
  - vm_compute. lia.
Defined.

Lemma train_agrees_with_process_witness :
  ∃ examples',
    train sample_attributes sample_spacy_docs sample_component
      [greeting; reply] = Ok examples' ∧
    length examples' = length [greeting; reply] ∧
    ∀ (idx : nat) example, [greeting; reply] !! idx = Some example →
      ∃ example' calls,
        examples' !! idx = Some example' ∧
        process sample_attributes sample_spacy_docs sample_component example
        = Ok (example', calls).
Proof.
  apply (train_agrees_with_process sample_attributes sample_spacy_docs
           sample_component [greeting; reply]).
  - exact sample_pipe_is_call.
  - exact sample_call_nonempty.
  - exact sample_spacy_docs_defined.
Defined.

Lemma process_attaches_doc_witness :
  ∃ message' calls,
    process sample_attributes sample_spacy_docs sample_component reply
    = Ok (message', calls) ∧
    representations message' !! "response_spacy_doc"
    = Some (DocItem (call (nlp sample_component)
                       (_preprocess_text sample_component
                          (Some "Hi There")))) ∧
    _preprocess_text sample_component (Some "Hi There") ∈ calls.
Proof.
  apply (process_attaches_doc sample_attributes sample_spacy_docs
           sample_component reply "response" "response_spacy_doc"
           "Hi There").
  - intros a t Ha _ _. by apply sample_spacy_docs_defined.
  - intros a t Ha _ _ Hk.
    apply (sample_spacy_docs_distinct a "response" "response_spacy_doc");
      [done| |done|reflexivity].
    sample_attribute_member.
  - sample_attribute_member.
  - reflexivity.
  - reflexivity.
  - discriminate.
Defined.

Lemma process_missing_key_raises_KeyError_witness :
  raises KeyError (process sample_attributes ∅ sample_component reply).
Proof.
  apply (process_missing_key_raises_KeyError sample_attributes ∅
           sample_component reply "response" "Hi There").
  - sample_attribute_member.
  - reflexivity.
  - discriminate.
  - reflexivity.
Defined.

Lemma train_twice_witness :
  train sample_attributes sample_spacy_docs sample_component
    [msg_set greeting "text_spacy_doc" (DocItem ["hello"]);
     msg_set reply "response_spacy_doc" (DocItem ["hi there"])]
  = Ok [msg_set greeting "text_spacy_doc" (DocItem ["hello"]);
        msg_set reply "response_spacy_doc" (DocItem ["hi there"])].
Proof.
  apply (train_twice sample_attributes sample_spacy_docs sample_component
           [greeting; reply]).
  - vm_compute. reflexivity.
  - exact sample_spacy_docs_defined.
Defined.

Lemma create_returns_validated_witness :
  let resolved :=
    resolve_model_name (sample_override_defaults defaults ∅) "en" in
  sample_loader resolved.1 = Ok sample_model ∧
  is_Some (path sample_model) ∧
  resolved.2 !! "model" = Some resolved.1 ∧
  sample_component_init resolved.2 = sample_component_init resolved.2.
Proof.
  apply (create_returns_validated sample_override_defaults
           sample_component_init sample_loader ∅ "en"
           (new_component sample_component_init
              (resolve_model_name (sample_override_defaults defaults ∅)
                 "en").2 sample_model)).
  vm_compute. reflexivity.
Defined.

Example load_cached_sample :
  load sample_component_init sample_loader ∅ (Some sample_component)
  = Ok sample_component.
Proof. reflexivity. Qed.

Lemma sample_component_init_keeps_model (c : gmap string pyval) (v : pyval) :
  c !! "model" = Some v → sample_component_init c !! "model" = Some v.
Proof.
  intros Hc. unfold sample_component_init, sample_override_defaults.
  apply lookup_union_Some_l. by rewrite lookup_insert_ne.
Defined.

Lemma create_then_load_witness :
  let created :=
    new_component sample_component_init
      (resolve_model_name (sample_override_defaults defaults ∅) "en").2
      sample_model in
  load sample_component_init sample_loader (component_config created) None
  = Ok (new_component sample_component_init (component_config created)
          (nlp created)).
Proof.
  apply (create_then_load sample_override_defaults sample_component_init
           sample_loader ∅ "en").
  - exact sample_component_init_keeps_model.
  - vm_compute. reflexivity.
Defined.

Lemma cache_key_after_resolve_witness :
  ∃ model,
    (resolve_model_name defaults "en").1 = PyStr model ∧
    ∀ language',
      cache_key "SpacyNLP" (resolve_model_name defaults "en").2 language'
      = Ok (PyStr (("SpacyNLP" +:+ "-") +:+ model)).
Proof.
  apply (cache_key_after_resolve "SpacyNLP" defaults "en").
  vm_compute. discriminate.
Defined.

Lemma cache_key_same_model_witness :
  (resolve_model_name {[ "model" := PyStr "" ]} "en").1
  = (resolve_model_name defaults "en").1.
Proof.
  apply (cache_key_same_model "SpacyNLP" {[ "model" := PyStr "" ]} defaults
           "en" "en" "de" "fr").
  - vm_compute. discriminate.
  - vm_compute. discriminate.
  - reflexivity.
Defined.

(** On configurations as given, an empty [model] entry gives one key for
    two languages that [create] resolves to two models. *)
Example cache_key_empty_model :
  cache_key "SpacyNLP" {[ "model" := PyStr "" ]} "en"
  = cache_key "SpacyNLP" {[ "model" := PyStr "" ]} "de" ∧
  (resolve_model_name {[ "model" := PyStr "" ]} "en").1
  ≠ (resolve_model_name {[ "model" := PyStr "" ]} "de").1.
Proof. split; [reflexivity|]. vm_compute. discriminate. Qed.
